(** * github-sbom-generator: the [generate] command

    A shallow embedding of [src/github-sbom-generator/cli/generate.go]
    (package [cli]) and the properties of its pipeline: locator
    resolution ([parse]), license detection ([getLicenseFromReader]),
    document assembly ([buildSbom], [githubUrlToDownload]) and the
    command body ([generateCmd]'s [RunE]).

    Go strings are byte strings and are modelled by [string]; the Go
    standard-library functions the command calls are modelled in the
    modules [GoStrings], [GoPath] and [NetURL]; what lies outside the
    process (git metadata, HTTP, the license scanner, the clock) is a
    record of oracles, [Env]; the file system, the temporary-directory
    counter and the trace of observable effects are the explicit state
    [World]. *)

From Stdlib Require Import PrimFloat Ascii DecimalString.
From stdpp Require Import gmap strings list.

Local Open Scope stdpp_scope.

(** ** Go's [strings] package, on byte strings *)

Module GoStrings.

(** [s[n:]] *)
Fixpoint drop (n : nat) (s : string) : string :=
  match n, s with
  | 0, _ => s
  | S _, EmptyString => EmptyString
  | S n', String _ s' => drop n' s'
  end.

(** [s[:n]] *)
Fixpoint take (n : nat) (s : string) : string :=
  match n, s with
  | 0, _ => EmptyString
  | S _, EmptyString => EmptyString
  | S n', String c s' => String c (take n' s')
  end.

(** [strings.HasPrefix(s, prefix)] *)
Fixpoint HasPrefix (s prefix : string) {struct prefix} : bool :=
  match prefix, s with
  | EmptyString, _ => true
  | String _ _, EmptyString => false
  | String p prefix', String c s' => Ascii.eqb c p && HasPrefix s' prefix'
  end.

(** [strings.HasSuffix(s, suffix)]:
    [len(s) >= len(suffix) && s[len(s)-len(suffix):] == suffix] *)
Definition HasSuffix (s suffix : string) : bool :=
  (String.length suffix <=? String.length s)
  && String.eqb (drop (String.length s - String.length suffix) s) suffix.

(** [strings.TrimSuffix(s, suffix)] *)
Definition TrimSuffix (s suffix : string) : string :=
  if HasSuffix s suffix
  then take (String.length s - String.length suffix) s
  else s.

(** [strings.Index(s, substr)], [None] for Go's [-1] *)
Fixpoint Index (s substr : string) : option nat :=
  if HasPrefix s substr then Some 0
  else match s with
       | EmptyString => None
       | String _ s' => S <$> Index s' substr
       end.

(** [strings.LastIndex(s, substr)], [None] for Go's [-1] *)
Fixpoint LastIndex (s substr : string) : option nat :=
  match s with
  | EmptyString => if HasPrefix s substr then Some 0 else None
  | String _ s' =>
      match LastIndex s' substr with
      | Some i => Some (S i)
      | None => if HasPrefix s substr then Some 0 else None
      end
  end.

(** [strings.Contains(s, substr)] *)
Definition Contains (s substr : string) : bool :=
  bool_decide (is_Some (Index s substr)).

(** [strings.Cut(s, sep)]: before, after, found *)
Definition Cut (s sep : string) : string * string * bool :=
  match Index s sep with
  | Some i => (take i s, drop (i + String.length sep) s, true)
  | None => (s, EmptyString, false)
  end.

(** [strings.Count(s, string(c))] for a one-byte substring *)
Fixpoint CountByte (s : string) (c : ascii) : nat :=
  match s with
  | EmptyString => 0
  | String d s' => (if Ascii.eqb d c then 1 else 0) + CountByte s' c
  end.

(** [strings.Replace(s, old, new, 1)]: the first occurrence of [old]
    is replaced by [new]; an empty [old] matches at the start. *)
Fixpoint Replace1 (s old new : string) : string :=
  if HasPrefix s old then new +:+ drop (String.length old) s
  else match s with
       | EmptyString => EmptyString
       | String c s' => String c (Replace1 s' old new)
       end.

(** [strings.Split(s, string(sep))] for a one-byte separator. *)
Fixpoint SplitByte (s : string) (sep : ascii) : list string :=
  match s with
  | EmptyString => [EmptyString]
  | String c s' =>
      if Ascii.eqb c sep then EmptyString :: SplitByte s' sep
      else match SplitByte s' sep with
           | h :: t => String c h :: t
           | [] => [String c EmptyString]
           end
  end.

(** [strings.Join(elems, sep)] *)
Fixpoint Join (elems : list string) (sep : string) : string :=
  match elems with
  | [] => EmptyString
  | [e] => e
  | e :: es => e +:+ sep +:+ Join es sep
  end.

(** [strings.ToLower] on ASCII letters (bytes [>= 0x80] are left as
    they are: the callers below only lower-case URL schemes, which
    are ASCII). *)
Definition lower_byte (c : ascii) : ascii :=
  let n := nat_of_ascii c in
  if (65 <=? n) && (n <=? 90) then ascii_of_nat (n + 32) else c.

Fixpoint ToLower (s : string) : string :=
  match s with
  | EmptyString => EmptyString
  | String c s' => String (lower_byte c) (ToLower s')
  end.

End GoStrings.

(** ** Go's [path] and [path/filepath] packages (Unix: separator [/],
    no volume names) *)

Module GoPath.
Import GoStrings.

Definition Separator : ascii := "/"%char.

(** One step of [Clean] over the element stack (top first): empty
    and [.] elements are dropped, [..] removes the previous element
    when there is one to remove and is otherwise kept (relative
    path) or dropped (rooted path), any other element is pushed. *)
Definition clean_step (rooted : bool) (stack : list string) (elem : string)
  : list string :=
  if decide (elem = "") then stack
  else if decide (elem = ".") then stack
  else if decide (elem = "..") then
    match stack with
    | top :: rest =>
        if decide (top = "..") then elem :: stack else rest
    | [] => if rooted then stack else [elem]
    end
  else elem :: stack.

(** [path.Clean] / [filepath.Clean]: the shortest path equivalent to
    [path] by purely lexical processing. *)
Definition Clean (path : string) : string :=
  if decide (path = "") then "."
  else
    let rooted := HasPrefix path "/" in
    let stack := fold_left (clean_step rooted) (SplitByte path Separator) [] in
    let body := Join (rev stack) "/" in
    if rooted then "/" +:+ body
    else if decide (body = "") then "." else body.

(** [path.Join(a, b)]: empty elements are ignored, the result is
    cleaned, and joining nothing but empty elements gives [""]. *)
Definition Join2 (a b : string) : string :=
  if decide (a = "") then (if decide (b = "") then "" else Clean b)
  else Clean (a +:+ "/" +:+ b).

(** The index of the last separator of [path], as the loops of
    [filepath.Dir] and [filepath.Base] find it. *)
Definition last_separator (path : string) : option nat :=
  LastIndex path "/".

(** [filepath.Dir(path)] *)
Definition Dir (path : string) : string :=
  match last_separator path with
  | Some i => Clean (take (S i) path)
  | None => Clean ""
  end.

(** The first loop of [filepath.Base]: trailing separators go. *)
Fixpoint strip_trailing_slashes (path : string) : string :=
  match path with
  | EmptyString => EmptyString
  | String c rest =>
      match strip_trailing_slashes rest with
      | EmptyString => if Ascii.eqb c Separator then EmptyString
                       else String c EmptyString
      | rest' => String c rest'
      end
  end.

(** [filepath.Base(path)] *)
Definition Base (path : string) : string :=
  if decide (path = "") then "."
  else
    let path := strip_trailing_slashes path in
    let path := match last_separator path with
                | Some i => drop (S i) path
                | None => path
                end in
    if decide (path = "") then "/" else path.

End GoPath.

(** ** Go's [net/url] package: [url.Parse] and [URL.String] *)

Module NetURL.
Import GoStrings.

Record Userinfo := mkUserinfo {
  username : string;
  password : string;
  passwordSet : bool
}.

Record URL := mkURL {
  Scheme : string;
  Opaque : string;
  User : option Userinfo;
  Host : string;
  Path : string;
  RawPath : string;
  OmitHost : bool;
  ForceQuery : bool;
  RawQuery : string;
  Fragment : string;
  RawFragment : string
}.

Definition emptyURL : URL :=
  mkURL "" "" None "" "" "" false false "" "" "".

Definition set_Path (u : URL) (p : string) : URL :=
  mkURL (Scheme u) (Opaque u) (User u) (Host u) p (RawPath u)
        (OmitHost u) (ForceQuery u) (RawQuery u) (Fragment u) (RawFragment u).

Inductive encoding :=
| encodePath | encodePathSegment | encodeHost | encodeZone
| encodeUserPassword | encodeQueryComponent | encodeFragment.

Global Instance encoding_eq_dec : EqDecision encoding.
Proof. solve_decision. Defined.

Definition byte_in (c : ascii) (set : string) : bool :=
  bool_decide (0 < CountByte set c).

Definition between (lo hi c : ascii) : bool :=
  (nat_of_ascii lo <=? nat_of_ascii c) && (nat_of_ascii c <=? nat_of_ascii hi).

Definition is_alpha (c : ascii) : bool :=
  between "a" "z" c || between "A" "Z" c.
Definition is_digit (c : ascii) : bool := between "0" "9" c.
Definition double_quote : ascii := ascii_of_nat 34.

Definition ishex (c : ascii) : bool :=
  is_digit c || between "a" "f" c || between "A" "F" c.

Definition unhex (c : ascii) : nat :=
  if is_digit c then nat_of_ascii c - 48
  else if between "a" "f" c then nat_of_ascii c - 97 + 10
  else if between "A" "F" c then nat_of_ascii c - 65 + 10
  else 0.

Definition upperhex (n : nat) : ascii :=
  if n <? 10 then ascii_of_nat (48 + n) else ascii_of_nat (65 + (n - 10)).

(** [shouldEscape(c, mode)] *)
Definition shouldEscape (c : ascii) (mode : encoding) : bool :=
  if is_alpha c || is_digit c then false
  else if bool_decide (mode = encodeHost \/ mode = encodeZone)
          && (byte_in c "!$&'()*+,;=:[]<>" || Ascii.eqb c double_quote)
  then false
  else if byte_in c "-_.~" then false
  else if byte_in c "$&+,/:;=?@" then
    match mode with
    | encodePath => Ascii.eqb c "?"
    | encodePathSegment => byte_in c "/;,?"
    | encodeUserPassword => byte_in c "@/?:"
    | encodeQueryComponent => true
    | encodeFragment => false
    | encodeHost | encodeZone => true
    end
  else if bool_decide (mode = encodeFragment) && byte_in c "!()*" then false
  else true.

(** [unescape(s, mode)]; [None] is an [EscapeError] or an
    [InvalidHostError]. *)
Fixpoint unescape (s : string) (mode : encoding) : option string :=
  match s with
  | EmptyString => Some EmptyString
  | String c rest =>
      if Ascii.eqb c "%" then
        match rest with
        | String a (String b rest') =>
            let v := unhex a * 16 + unhex b in
            let is25 := Ascii.eqb a "2" && Ascii.eqb b "5" in
            if negb (ishex a && ishex b) then None
            else if bool_decide (mode = encodeHost) && (unhex a <? 8) && negb is25
            then None
            else if bool_decide (mode = encodeZone) && negb is25
                    && negb (v =? 32) && shouldEscape (ascii_of_nat v) encodeHost
            then None
            else String (ascii_of_nat v) <$> unescape rest' mode
        | _ => None
        end
      else if Ascii.eqb c "+" then
        String (if bool_decide (mode = encodeQueryComponent) then " "%char else c)
          <$> unescape rest mode
      else if bool_decide (mode = encodeHost \/ mode = encodeZone)
              && (nat_of_ascii c <? 128) && shouldEscape c encodeHost
      then None
      else String c <$> unescape rest mode
  end.

(** [escape(s, mode)] *)
Fixpoint escape (s : string) (mode : encoding) : string :=
  match s with
  | EmptyString => EmptyString
  | String c rest =>
      if Ascii.eqb c " " && bool_decide (mode = encodeQueryComponent)
      then String "+" (escape rest mode)
      else if shouldEscape c mode
      then String "%" (String (upperhex (nat_of_ascii c / 16))
                         (String (upperhex (nat_of_ascii c mod 16))
                            (escape rest mode)))
      else String c (escape rest mode)
  end.

(** [validEncoded(s, mode)] *)
Fixpoint validEncoded (s : string) (mode : encoding) : bool :=
  match s with
  | EmptyString => true
  | String c rest =>
      (byte_in c "!$&'()*+,;=:@[]%" || negb (shouldEscape c mode))
      && validEncoded rest mode
  end.

(** [stringContainsCTLByte(s)] *)
Fixpoint stringContainsCTLByte (s : string) : bool :=
  match s with
  | EmptyString => false
  | String c rest =>
      (nat_of_ascii c <? 32) || (nat_of_ascii c =? 127)
      || stringContainsCTLByte rest
  end.

(** [getScheme(rawURL)]: [Some (scheme, rest)], or [None] for the
    error "missing protocol scheme". [i] is the loop index. *)
Fixpoint getScheme_from (rawURL s : string) (i : nat)
  : option (string * string) :=
  match s with
  | EmptyString => Some (EmptyString, rawURL)
  | String c s' =>
      if is_alpha c then getScheme_from rawURL s' (S i)
      else if is_digit c || byte_in c "+-." then
        if i =? 0 then Some (EmptyString, rawURL)
        else getScheme_from rawURL s' (S i)
      else if Ascii.eqb c ":" then
        if i =? 0 then None
        else Some (take i rawURL, drop (S i) rawURL)
      else Some (EmptyString, rawURL)
  end.

Definition getScheme (rawURL : string) : option (string * string) :=
  getScheme_from rawURL rawURL 0.

(** [validOptionalPort(port)] *)
Definition validOptionalPort (port : string) : bool :=
  match port with
  | EmptyString => true
  | String c digits =>
      Ascii.eqb c ":"
      && bool_decide (Forall (fun d => is_digit d = true) (String.list_ascii_of_string digits))
  end.

(** [validUserinfo(s)] *)
Definition validUserinfo (s : string) : bool :=
  bool_decide (Forall (fun c => is_alpha c || is_digit c
                                || byte_in c "-._:~!$&'()*+,;=%@" = true)
                 (String.list_ascii_of_string s)).

(** [parseHost(host)] *)
Definition parseHost (host : string) : option string :=
  if HasPrefix host "[" then
    match LastIndex host "]" with
    | None => None
    | Some i =>
        if negb (validOptionalPort (drop (S i) host)) then None
        else match Index (take i host) "%25" with
             | Some zone =>
                 host1 ← unescape (take zone host) encodeHost;
                 host2 ← unescape (drop zone (take i host)) encodeZone;
                 host3 ← unescape (drop i host) encodeHost;
                 Some (host1 +:+ host2 +:+ host3)
             | None => unescape host encodeHost
             end
    end
  else
    match LastIndex host ":" with
    | Some i =>
        if negb (validOptionalPort (drop i host)) then None
        else unescape host encodeHost
    | None => unescape host encodeHost
    end.

(** [parseAuthority(authority)] *)
Definition parseAuthority (authority : string)
  : option (option Userinfo * string) :=
  match LastIndex authority "@" with
  | None => host ← parseHost authority; Some (None, host)
  | Some i =>
      host ← parseHost (drop (S i) authority);
      let userinfo := take i authority in
      if negb (validUserinfo userinfo) then None
      else if negb (Contains userinfo ":") then
        name ← unescape userinfo encodeUserPassword;
        Some (Some (mkUserinfo name "" false), host)
      else
        let '(name, pass, _) := Cut userinfo ":" in
        name' ← unescape name encodeUserPassword;
        pass' ← unescape pass encodeUserPassword;
        Some (Some (mkUserinfo name' pass' true), host)
  end.

(** [parse(rawURL, viaRequest = false)]: a URL without its
    fragment. *)
Definition parse_nofrag (rawURL : string) : option URL :=
  if stringContainsCTLByte rawURL then None
  else if decide (rawURL = "*") then
    Some (mkURL "" "" None "" "*" "" false false "" "" "")
  else
    '(scheme0, rest0) ← getScheme rawURL;
    let scheme := ToLower scheme0 in
    let '(rest, force, query) :=
      if HasSuffix rest0 "?" && (CountByte rest0 "?" =? 1)
      then (take (String.length rest0 - 1) rest0, true, "")
      else let '(r, q, _) := Cut rest0 "?" in (r, false, q) in
    if negb (HasPrefix rest "/") && negb (bool_decide (scheme = ""))
    then Some (mkURL scheme rest None "" "" "" false force query "" "")
    else if negb (HasPrefix rest "/") && Contains (Cut rest "/").1.1 ":"
    then None
    else
      '(user, host, rest', omit) ←
        (if (negb (bool_decide (scheme = "")) || negb (HasPrefix rest "///"))
            && HasPrefix rest "//"
         then
           let authority0 := drop 2 rest in
           let '(authority, rest') :=
             match Index authority0 "/" with
             | Some i => (take i authority0, drop i authority0)
             | None => (authority0, "")
             end in
           '(user, host) ← parseAuthority authority;
           Some (user, host, rest', false)
         else
           Some (None, "", rest,
                 negb (bool_decide (scheme = "")) && HasPrefix rest "/"));
      path ← unescape rest' encodePath;
      let rawpath :=
        if decide (rest' = escape path encodePath) then "" else rest' in
      Some (mkURL scheme "" user host path rawpath omit force query "" "").

(** [url.Parse(rawURL)]; [None] stands for the returned [*url.Error]. *)
Definition Parse (rawURL : string) : option URL :=
  let '(u, frag, _) := Cut rawURL "#" in
  url ← parse_nofrag u;
  if decide (frag = "") then Some url
  else
    fragment ← unescape frag encodeFragment;
    let rawfragment :=
      if decide (frag = escape fragment encodeFragment) then "" else frag in
    Some (mkURL (Scheme url) (Opaque url) (User url) (Host url) (Path url)
            (RawPath url) (OmitHost url) (ForceQuery url) (RawQuery url)
            fragment rawfragment).

(** [URL.EscapedPath] *)
Definition EscapedPath (u : URL) : string :=
  if negb (bool_decide (RawPath u = "")) && validEncoded (RawPath u) encodePath
     && bool_decide (unescape (RawPath u) encodePath = Some (Path u))
  then RawPath u
  else if decide (Path u = "*") then "*"
  else escape (Path u) encodePath.

(** [URL.EscapedFragment] *)
Definition EscapedFragment (u : URL) : string :=
  if negb (bool_decide (RawFragment u = ""))
     && validEncoded (RawFragment u) encodeFragment
     && bool_decide (unescape (RawFragment u) encodeFragment = Some (Fragment u))
  then RawFragment u
  else escape (Fragment u) encodeFragment.

(** [Userinfo.String] *)
Definition Userinfo_String (ui : Userinfo) : string :=
  escape (username ui) encodeUserPassword
  +:+ (if passwordSet ui
       then ":" +:+ escape (password ui) encodeUserPassword else "").

(** [URL.String] *)
Definition URL_String (u : URL) : string :=
  let scheme_part :=
    if decide (Scheme u = "") then "" else Scheme u +:+ ":" in
  let body :=
    if negb (bool_decide (Opaque u = "")) then scheme_part +:+ Opaque u
    else
      let authority :=
        if negb (bool_decide (Scheme u = "")) || negb (bool_decide (Host u = ""))
           || bool_decide (is_Some (User u))
        then
          if OmitHost u && bool_decide (Host u = "")
             && bool_decide (User u = None)
          then ""
          else
            (if negb (bool_decide (Host u = "")) || negb (bool_decide (Path u = ""))
                || bool_decide (is_Some (User u))
             then "//" else "")
            +:+ (match User u with
                 | Some ui => Userinfo_String ui +:+ "@"
                 | None => ""
                 end)
            +:+ (if decide (Host u = "") then "" else escape (Host u) encodeHost)
        else "" in
      let path := EscapedPath u in
      let buf := scheme_part +:+ authority in
      let buf :=
        if negb (bool_decide (path = "")) && negb (HasPrefix path "/")
           && negb (bool_decide (Host u = ""))
        then buf +:+ "/" else buf in
      let buf :=
        if bool_decide (buf = "") && Contains (Cut path "/").1.1 ":"
        then "./" else buf in
      buf +:+ path in
  body
  +:+ (if ForceQuery u || negb (bool_decide (RawQuery u = ""))
       then "?" +:+ RawQuery u else "")
  +:+ (if decide (Fragment u = "") then "" else "#" +:+ EscapedFragment u).

End NetURL.

(** ** Data of the program and of its collaborators *)

(** The file system: one tree. A directory lists its entries in the
    order [ReadDir] returns them (sorted by name); [readable] is false
    for a directory that cannot be listed or a file that cannot be
    opened and read. *)
#[warnings="-register-all"]
Inductive node :=
| File (readable : bool) (content : string)
| Symlink
| Dir (readable : bool) (entries : list (string * node)).

(** [licensecheck.Match] (only the identifier is read) and
    [licensecheck.Coverage]. *)
Record Match := mkMatch { ID : string }.
Record Coverage := mkCoverage { Percent : float; Matches : list Match }.

(** What [go-git] finds at a local path: the URLs configured for the
    remote [origin] ([None]: no such remote) and the hash [HEAD]
    points to ([None]: [Head()] fails). *)
Record GitRepo := mkGitRepo {
  origin_URLs : option (list string);
  head_hash : option string
}.

(** One entry of a tar stream, by [header.Typeflag]. *)
Inductive TarEntry :=
| TarDir (name : string)
| TarReg (name : string) (content : string)
| TarOther (name : string).

(** A response body as [gzip.NewReader] and [tar.Reader] see it: not a
    gzip stream, or a stream of entries that ends in [io.EOF]
    ([clean_end = true]) or in a read error. *)
Inductive Body :=
| BodyNotGzip
| BodyGzip (entries : list TarEntry) (clean_end : bool).

Inductive HttpResult :=
| TransportError
| Response (status : nat) (body : Body).

(** Go [error] values of the command, one constructor per site. *)
Inductive error :=
| ErrUnknownFormat (format : string)
| ErrOpenRepo (path : string)
| ErrRemoteOrigin (path : string)
| ErrNoRemoteOrigin (path : string)
| ErrHead (path : string)
| ErrMkdirTemp
| ErrHttpGet (url : string)
| ErrGzip
| ErrTar
| ErrURLParse (repoWithRef : string)
| ErrURLNotValid (repoWithRef : string)
| ErrStat (path : string)
| ErrReadDir (path : string)
| ErrOpen (path : string)
| ErrGzipClose
| ErrRemoveAll (dir : string)
| ErrWrite.

(** [log.Fatalf]: the process exits. *)
Inductive fatal :=
| FatalGenerating (repo : string) (e : error)
| FatalExtractMkdir (path : string)
| FatalExtractCreate (path : string).

Global Instance error_eq_dec : EqDecision error.
Proof. solve_decision. Defined.

(** [spdx.PackageExternalReference], [spdx.Package] and
    [spdx.Document], with the fields the command sets. *)
Record PackageExternalReference := mkExternalRef {
  Category : string;
  RefType : string;
  Locator : string
}.

Record Package := mkPackage {
  PackageName : string;
  PackageSPDXIdentifier : string;
  PackageVersion : string;
  PackageDownloadLocation : string;
  PackageLicenseConcluded : string;
  PackageLicenseDeclared : string;
  PackageExternalReferences : list PackageExternalReference
}.

Record Creator := mkCreator { CreatorName : string; CreatorType : string }.

Record Document := mkDocument {
  SPDXVersion : string;
  DataLicense : string;
  SPDXIdentifier : string;
  DocumentName : string;
  DocumentNamespace : string;
  Created : string;
  Creators : list Creator;
  Packages : list Package
}.

Inductive OutputWriter := TagValue | Json.

(** Observable effects, oldest first in [trace]. [EvStdout] is the
    whole rendering of a document on standard output,
    [EvStdoutPartial] what a writer that failed had printed of it. *)
Inductive event :=
| EvGitOpen (path : string)
| EvMkdirTemp (dir : string)
| EvHttpGet (url : string)
| EvMkdir (path : string)
| EvCreate (path : string)
| EvWalkDir (dir : string)
| EvRemoveAll (dir : string)
| EvStdout (w : OutputWriter) (doc : Document)
| EvStdoutPartial (w : OutputWriter) (doc : Document).

(** The collaborators outside the process. [licenseFileNames] is the
    package-level table of recognised license file names, which
    [generate.go] reads but does not declare. The last three tell
    which calls fail: closing the gzip reader of a scratch directory,
    removing a scratch directory, writing a document. A removal that
    fails comes with the entries it could not remove, by their path
    from the directory. *)
Record Env := mkEnv {
  git_PlainOpen : string -> option GitRepo;
  http_Get : string -> HttpResult;
  licensecheck_Scan : string -> Coverage;
  licenseFileNames : gset string;
  os_Getwd : string;
  os_TempDir : string;
  temp_suffix : nat -> string;
  uuid_New : string;
  time_Now : string;
  gzip_Close_fails : string -> bool;
  os_RemoveAll_fails : string -> option (list string -> bool);
  write_fails : OutputWriter -> Document -> bool
}.

Record World := mkWorld {
  fs : node;
  temps : nat;
  trace : list event
}.

(** The closure [closer] of [parse], by what it captured: [gz] (nil
    when [decompress] never ran) and [tmpDir]. *)
Record closer := mkCloser { gz_set : bool; tmpDir : string }.

(** [repoWithReader]: [url] points to a [url.URL] owned by this value
    alone, [FS] is [os.DirFS(readerDir)]. *)
Record repoWithReader := mkRepo {
  url : NetURL.URL;
  readerDir : string;
  close : option closer
}.

Definition set_url (r : repoWithReader) (u : NetURL.URL) : repoWithReader :=
  mkRepo u (readerDir r) (close r).

(** ** Constants of [generate.go] *)

Definition defaultNamespace : string := "https://github.com/lf-edge/eve/spdx".
Definition creator : string :=
  "https://github.com/lf-edge/eve/tools/github-sbom-generator".
Definition coverageThreshold : float := 75%float.
Definition unknownLicenseType : string := "UNKNOWN".

(** ** Results and effects *)

Inductive result (A : Type) :=
| Ok (a : A)
| Err (e : error).
Arguments Ok {A} a.
Arguments Err {A} e.

(** How a call ends: it returns, the process exits in [log.Fatalf], or
    the goroutine panics. *)
Inductive outcome (A : Type) :=
| Ret (a : A)
| Fatal (f : fatal)
| Panic.
Arguments Ret {A} a.
Arguments Fatal {A} f.
Arguments Panic {A}.

Definition M (A : Type) : Type := World -> outcome A * World.

Definition ret {A} (a : A) : M A := fun w => (Ret a, w).

Definition bind {A B} (m : M A) (k : A -> M B) : M B :=
  fun w =>
    match m w with
    | (Ret a, w') => k a w'
    | (Fatal f, w') => (Fatal f, w')
    | (Panic, w') => (Panic, w')
    end.

Definition log_Fatalf {A} (f : fatal) : M A := fun w => (Fatal f, w).
Definition panic {A} : M A := fun w => (Panic, w).

Definition emit (e : event) : M unit :=
  fun w => (Ret tt, mkWorld (fs w) (temps w) (trace w ++ [e])).

Definition get_fs : M node := fun w => (Ret (fs w), w).
Definition put_fs (n : node) : M unit :=
  fun w => (Ret tt, mkWorld n (temps w) (trace w)).
Definition next_temp : M nat :=
  fun w => (Ret (temps w), mkWorld (fs w) (S (temps w)) (trace w)).

Notation "x <~ c ;; k" := (bind c (fun x => k))
  (at level 100, c at next level, right associativity).
Notation "c ;;; k" := (bind c (fun _ => k))
  (at level 100, right associativity).

(** ** File-system operations *)

Module FS.
Import GoStrings.

Fixpoint lookup_entry (name : string) (es : list (string * node))
  : option node :=
  match es with
  | [] => None
  | (n, d) :: es' => if decide (n = name) then Some d else lookup_entry name es'
  end.

Fixpoint remove_entry (name : string) (es : list (string * node))
  : list (string * node) :=
  match es with
  | [] => []
  | (n, d) :: es' =>
      if decide (n = name) then remove_entry name es'
      else (n, d) :: remove_entry name es'
  end.

(** Insert or replace, keeping the entries sorted by name. *)
Fixpoint put_entry (name : string) (d : node) (es : list (string * node))
  : list (string * node) :=
  match es with
  | [] => [(name, d)]
  | (n, d') :: es' =>
      if decide (n = name) then (name, d) :: es'
      else if String.ltb name n then (name, d) :: (n, d') :: es'
      else (n, d') :: put_entry name d es'
  end.

(** The elements of a cleaned absolute path. *)
Definition segments (abs : string) : list string :=
  filter (fun s => s <> "") (SplitByte abs GoPath.Separator).

Fixpoint lookup (n : node) (segs : list string) : option node :=
  match segs with
  | [] => Some n
  | s :: segs' =>
      match n with
      | Dir _ es => d ← lookup_entry s es; lookup d segs'
      | _ => None
      end
  end.

(** Apply [f] to the entries of the directory at [segs]; [None] when
    there is no such directory or [f] refuses. *)
Fixpoint in_dir (f : list (string * node) -> option (list (string * node)))
         (n : node) (segs : list string) : option node :=
  match n with
  | Dir r es =>
      match segs with
      | [] => Dir r <$> f es
      | s :: segs' =>
          d ← lookup_entry s es;
          d' ← in_dir f d segs';
          Some (Dir r (put_entry s d' es))
      end
  | _ => None
  end.

(** [os.Mkdir]: the parent must exist, the name must be free. *)
Definition mkdir (root : node) (segs : list string) : option node :=
  match last segs with
  | None => None
  | Some name =>
      in_dir (fun es => match lookup_entry name es with
                        | Some _ => None
                        | None => Some (put_entry name (Dir true []) es)
                        end) root (removelast segs)
  end.

(** [os.Create] followed by writing [content]: the parent must
    exist; an existing regular file is truncated; a directory or a
    symbolic link in the way is an error here. *)
Definition create (root : node) (segs : list string) (content : string)
  : option node :=
  match last segs with
  | None => None
  | Some name =>
      in_dir (fun es => match lookup_entry name es with
                        | Some (Dir _ _) | Some Symlink => None
                        | _ => Some (put_entry name (File true content) es)
                        end) root (removelast segs)
  end.

(** [os.RemoveAll]: the tree at the path goes; a path that does not
    exist is not an error. *)
Definition removeAll (root : node) (segs : list string) : node :=
  match last segs with
  | None => root
  | Some name =>
      default root
        (in_dir (fun es => Some (remove_entry name es)) root (removelast segs))
  end.

(** What is left of a tree when only the entries that [keep] accepts,
    by their path from [prefix], stay. *)
Fixpoint prune (keep : list string -> bool) (prefix : list string) (d : node)
  : node :=
  match d with
  | Dir r es =>
      Dir r ((fix go (es : list (string * node)) : list (string * node) :=
                match es with
                | [] => []
                | (n, d') :: es' =>
                    if keep (prefix ++ [n])
                    then (n, prune keep (prefix ++ [n]) d') :: go es'
                    else go es'
                end) es)
  | _ => d
  end.

(** [os.RemoveAll] that returns an error: the directory at the path
    stays, with the entries that could not be removed. *)
Definition removePart (keep : list string -> bool) (root : node)
           (segs : list string) : node :=
  match last segs with
  | None => root
  | Some name =>
      default root
        (in_dir (fun es => match lookup_entry name es with
                           | Some d => Some (put_entry name (prune keep [] d) es)
                           | None => Some es
                           end) root (removelast segs))
  end.

End FS.

(** ** The command *)

Section Generate.
Import GoStrings.
Variable env : Env.

(** A path as the operating system resolves it: relative paths start
    at the working directory. *)
Definition resolve (path : string) : list string :=
  FS.segments
    (if HasPrefix path "/" then GoPath.Clean path
     else GoPath.Clean (os_Getwd env +:+ "/" +:+ path)).

(** [joinPath(dir, name)] of package [os] *)
Definition os_joinPath (dir name : string) : string :=
  if HasSuffix dir "/" then dir +:+ name else dir +:+ "/" +:+ name.

(** [os.MkdirTemp("", "sbom")]: the directory is [os.TempDir()], the
    name is the prefix [sbom] and a random suffix, taken here from the
    oracle; a name that cannot be created is the error. *)
Definition os_MkdirTemp : M (result string) :=
  n <~ next_temp ;;
  let dir := os_joinPath (os_TempDir env) ("sbom" +:+ temp_suffix env n) in
  root <~ get_fs ;;
  match FS.mkdir root (resolve dir) with
  | None => ret (Err ErrMkdirTemp)
  | Some root' => put_fs root' ;;; emit (EvMkdirTemp dir) ;;; ret (Ok dir)
  end.

(** The loop of [extractURLToPath] over the tar stream. *)
Fixpoint extract_entries (path : string) (entries : list TarEntry) : M unit :=
  match entries with
  | [] => ret tt
  | TarDir name :: rest =>
      let target := GoPath.Join2 path name in
      root <~ get_fs ;;
      match FS.mkdir root (resolve target) with
      | None => log_Fatalf (FatalExtractMkdir target)
      | Some root' =>
          put_fs root' ;;; emit (EvMkdir target) ;;; extract_entries path rest
      end
  | TarReg name content :: rest =>
      let target := GoPath.Join2 path name in
      root <~ get_fs ;;
      match FS.create root (resolve target) content with
      | None => log_Fatalf (FatalExtractCreate target)
      | Some root' =>
          put_fs root' ;;; emit (EvCreate target) ;;; extract_entries path rest
      end
  | TarOther _ :: rest => extract_entries path rest
  end.

(** [extractURLToPath(u, path, decompress)], with the [decompress]
    closure of [parse] inlined: the boolean tells whether the closure
    ran and left a reader in [gz]. *)
Definition extractURLToPath (u path : string) : M (option error * bool) :=
  emit (EvHttpGet u) ;;;
  match http_Get env u with
  | TransportError => ret (Some (ErrHttpGet u), false)
  | Response status body =>
      if negb (status =? 200) then ret (None, false)
      else match body with
           | BodyNotGzip => ret (Some ErrGzip, false)
           | BodyGzip entries clean_end =>
               extract_entries path entries ;;;
               ret (if clean_end then None else Some ErrTar, true)
           end
  end.

(** The tail of [parse]: [url.Parse] and the validity check. *)
Definition parse_url (repoWithRef repo readerDir : string)
           (closer : option closer) : result repoWithReader :=
  match NetURL.Parse repo with
  | None => Err (ErrURLParse repoWithRef)
  | Some parsed =>
      if bool_decide (NetURL.Scheme parsed = "")
         || bool_decide (NetURL.Host parsed = "")
         || bool_decide (NetURL.Path parsed = "")
      then Err (ErrURLNotValid repoWithRef)
      else Ok (mkRepo parsed readerDir closer)
  end.

(** The URL [parse] derives for a local working copy from the first
    URL of the remote [origin] and the hash of [HEAD]. *)
Definition localRepoURL (origin hash : string) : string :=
  Replace1 origin "git@github.com:" "https://github.com/" +:+ "#" +:+ hash.

(** [parse(repoWithRef)] *)
Definition parse (repoWithRef : string) : M (result repoWithReader) :=
  if HasPrefix repoWithRef "/" || HasPrefix repoWithRef "." then
    emit (EvGitOpen repoWithRef) ;;;
    match git_PlainOpen env repoWithRef with
    | None => ret (Err (ErrOpenRepo repoWithRef))
    | Some r =>
        match origin_URLs r with
        | None => ret (Err (ErrRemoteOrigin repoWithRef))
        | Some [] => ret (Err (ErrNoRemoteOrigin repoWithRef))
        | Some (origin :: _) =>
            match head_hash r with
            | None => ret (Err (ErrHead repoWithRef))
            | Some hash =>
                ret (parse_url repoWithRef (localRepoURL origin hash)
                       repoWithRef None)
            end
        end
    end
  else
    tmp <~ os_MkdirTemp ;;
    match tmp with
    | Err e => ret (Err e)
    | Ok tmpDir =>
        extracted <~ extractURLToPath repoWithRef tmpDir ;;
        let '(err, gz) := extracted in
        match err with
        | Some e => ret (Err e)
        | None =>
            ret (parse_url repoWithRef repoWithRef tmpDir
                   (Some (mkCloser gz tmpDir)))
        end
    end.

(** [(r *repoWithReader) Close()], that is the closure [closer] of
    [parse]: [gz.Close()] on the nil reader panics; its error is
    returned before anything is removed; then [os.RemoveAll(tmpDir)],
    whose error is returned too, with a part of the directory left. *)
Definition Close (r : repoWithReader) : M (option error) :=
  match close r with
  | None => ret None
  | Some c =>
      if gz_set c then
        if gzip_Close_fails env (tmpDir c) then ret (Some ErrGzipClose)
        else
          root <~ get_fs ;;
          match os_RemoveAll_fails env (tmpDir c) with
          | Some keep =>
              put_fs (FS.removePart keep root (resolve (tmpDir c))) ;;;
              emit (EvRemoveAll (tmpDir c)) ;;;
              ret (Some (ErrRemoveAll (tmpDir c)))
          | None =>
              put_fs (FS.removeAll root (resolve (tmpDir c))) ;;;
              emit (EvRemoveAll (tmpDir c)) ;;;
              ret None
          end
      else panic
  end.

(** What [fs.WalkDir] hands to its callback besides the path: the
    entry, or the error that kept it from reading one. *)
Definition visit : Type := node + error.

(** The callback of [getLicenseFromReader]; [licenses] is the slice
    it appends to. *)
Definition walkFn (path : string) (v : visit) (licenses : list string)
  : option error * list string :=
  match v with
  | inr err => (Some err, licenses)
  | inl d =>
      if bool_decide (path = ".git") || HasPrefix path ".git/"
      then (None, licenses)
      else match d with
           | Dir _ _ => (None, licenses)
           | Symlink => (None, licenses)
           | File readable content =>
               let filename := GoPath.Base path in
               if negb (bool_decide (filename ∈ licenseFileNames env))
               then (None, licenses)
               else
                 let parts := SplitByte (GoPath.Dir path) GoPath.Separator in
                 if existsb (fun part => bool_decide (part = "vendor")) parts
                 then (None, licenses)
                 else if negb readable then (Some (ErrOpen path), licenses)
                 else
                   let cov := licensecheck_Scan env content in
                   let licenses :=
                     if PrimFloat.ltb (Percent cov) coverageThreshold
                     then licenses ++ [unknownLicenseType] else licenses in
                   (None,
                    fold_left (fun ls m => ls ++ [ID m]) (Matches cov) licenses)
           end
  end.

(** The loop of [walkDir] over the entries of the directory [name];
    [walk] visits one entry. *)
Fixpoint walkEntries {S : Type}
         (walk : string -> node -> S -> option error * S)
         (name : string) (entries : list (string * node)) (s : S)
  : option error * S :=
  match entries with
  | [] => (None, s)
  | (n1, d1) :: rest =>
      match walk (GoPath.Join2 name n1) d1 s with
      | (Some e, s') => (Some e, s')
      | (None, s') => walkEntries walk name rest s'
      end
  end.

(** [walkDir] of [io/fs], for a callback that never returns
    [SkipDir] or [SkipAll]. *)
Fixpoint walkDir {S : Type}
         (fn : string -> visit -> S -> option error * S)
         (name : string) (d : node) (s : S) : option error * S :=
  match fn name (inl d) s with
  | (Some e, s') => (Some e, s')
  | (None, s') =>
      match d with
      | Dir readable entries =>
          if negb readable then fn name (inr (ErrReadDir name)) s'
          else walkEntries (walkDir fn) name entries s'
      | _ => (None, s')
      end
  end.

(** [fs.WalkDir(os.DirFS(dir), ".", fn)] over the tree [root]. *)
Definition WalkDir {S : Type}
           (fn : string -> visit -> S -> option error * S)
           (root : node) (dir : string) (s : S) : option error * S :=
  match FS.lookup root (resolve dir) with
  | None => fn "." (inr (ErrStat dir)) s
  | Some d => walkDir fn "." d s
  end.

(** The first loop after the walk: [uniqueLicenses], with the map
    [m] as a set. *)
Fixpoint unique_from (m : gset string) (licenses : list string) : list string :=
  match licenses with
  | [] => []
  | l :: rest =>
      if decide (l ∈ m) then unique_from m rest
      else l :: unique_from ({[l]} ∪ m) rest
  end.

Definition unique (licenses : list string) : list string :=
  unique_from ∅ licenses.

(** The second loop: the first entry that is not [UNKNOWN], or the
    zero string. *)
Fixpoint firstKnown (uniqueLicenses : list string) : string :=
  match uniqueLicenses with
  | [] => ""
  | l :: rest =>
      if decide (l = unknownLicenseType) then firstKnown rest else l
  end.

(** [getLicenseFromReader] from the end of the walk on. *)
Definition reduceLicenses (walked : option error * list string)
  : string * string :=
  match walked with
  | (Some _, _) => ("", "")
  | (None, []) => ("", "")
  | (None, licenses) =>
      let uniqueLicenses := unique licenses in
      let licensesDeclared := Join uniqueLicenses " AND " in
      let licenseConcluded := firstKnown uniqueLicenses in
      (licensesDeclared,
       if decide (licenseConcluded = "") then unknownLicenseType
       else licenseConcluded)
  end.

(** [getLicenseFromReader(fsys)]; the deferred [fsys.Close()] runs
    after the results are computed, and its error is dropped. *)
Definition getLicenseFromReader (fsys : option repoWithReader)
  : M (string * string) :=
  match fsys with
  | None => ret ("", "")
  | Some r =>
      root <~ get_fs ;;
      emit (EvWalkDir (readerDir r)) ;;;
      let results := reduceLicenses (WalkDir walkFn root (readerDir r) []) in
      Close r ;;;
      ret results
  end.

(** [githubUrlToDownload(u)]: the string it returns and [*u] as it
    leaves it. *)
Definition githubUrlToDownload (u : NetURL.URL) : string * NetURL.URL :=
  let u := NetURL.set_Path u (TrimSuffix (NetURL.Path u) ".git") in
  (NetURL.Scheme u +:+ "://" +:+ NetURL.Host u +:+ NetURL.Path u
     +:+ "/archive/" +:+ NetURL.Fragment u +:+ ".tar.gz",
   u).

Definition set_version (pkg : Package) (v : string) : Package :=
  mkPackage (PackageName pkg) (PackageSPDXIdentifier pkg) v
    (PackageDownloadLocation pkg) (PackageLicenseConcluded pkg)
    (PackageLicenseDeclared pkg) (PackageExternalReferences pkg).

Definition set_declared (pkg : Package) (l : string) : Package :=
  mkPackage (PackageName pkg) (PackageSPDXIdentifier pkg) (PackageVersion pkg)
    (PackageDownloadLocation pkg) (PackageLicenseConcluded pkg)
    l (PackageExternalReferences pkg).

Definition set_concluded (pkg : Package) (l : string) : Package :=
  mkPackage (PackageName pkg) (PackageSPDXIdentifier pkg) (PackageVersion pkg)
    (PackageDownloadLocation pkg) l
    (PackageLicenseDeclared pkg) (PackageExternalReferences pkg).

(** The package literal of [buildSbom], from the URL as
    [githubUrlToDownload] left it.
    [MakeDocElementID("Package", name).ElementRefID] is [name]. *)
Definition newPackage (u : NetURL.URL) (downloadURL : string) : Package :=
  let name := GoPath.Base (NetURL.Path u) in
  mkPackage name name "" downloadURL "NOASSERTION" "NONE"
    [mkExternalRef "PACKAGE-MANAGER" "purl"
       ("pkg:generic/git?download_url=" +:+ NetURL.URL_String u)].

(** The body of the loop of [buildSbom] for one repository: the
    package appended, and the repository with its URL as mutated. *)
Definition buildPackage (r : repoWithReader) : M (Package * repoWithReader) :=
  let '(downloadURL, u) := githubUrlToDownload (url r) in
  let r := set_url r u in
  let name := GoPath.Base (NetURL.Path u) in
  let pkg := newPackage u downloadURL in
  let version := NetURL.Fragment u in
  let pkg := if decide (version = "") then pkg else set_version pkg version in
  licenses <~ getLicenseFromReader (Some r) ;;
  let '(licenseDeclared, licenseConcluded) := licenses in
  let pkg := if decide (licenseDeclared = "") then pkg
             else set_declared pkg licenseDeclared in
  let pkg := if decide (licenseConcluded = "") then pkg
             else set_concluded pkg licenseConcluded in
  let pkg :=
    if (bool_decide (NetURL.Scheme u = "git") || HasSuffix name ".git")
       && negb (bool_decide (NetURL.Fragment u = ""))
    then set_version pkg (NetURL.Fragment u) else pkg in
  ret (pkg, r).

Fixpoint buildPackages (repos : list repoWithReader) : M (list Package) :=
  match repos with
  | [] => ret []
  | r :: rest =>
      built <~ buildPackage r ;;
      packages <~ buildPackages rest ;;
      ret (built.1 :: packages)
  end.

(** [buildSbom(repos, namespace, creator)]; its error is always
    nil. *)
Definition buildSbom (repos : list repoWithReader) (namespace creator : string)
  : M Document :=
  packages <~ buildPackages repos ;;
  ret (mkDocument "SPDX-2.3" "CC0-1.0" "DOCUMENT" "github-repo"
         (namespace +:+ "-" +:+ uuid_New env) (time_Now env)
         [mkCreator creator "Tool"] packages).

(** The first loop of [RunE]. *)
Fixpoint parseAll (args : list string) : M (list repoWithReader) :=
  match args with
  | [] => ret []
  | repo :: rest =>
      r <~ parse repo ;;
      match r with
      | Err err => log_Fatalf (FatalGenerating repo err)
      | Ok r =>
          allRepos <~ parseAll rest ;;
          ret (r :: allRepos)
      end
  end.

(** [spdxtv.Write(sbom, os.Stdout)] and
    [spdxjson.Write(sbom, os.Stdout)]: a writer prints as it goes, so
    when it fails a part of the rendering is on standard output, and
    its error is what [RunE] returns. *)
Definition writeDocument (wtr : OutputWriter) (sbom : Document) : M (option error) :=
  if write_fails env wtr sbom
  then emit (EvStdoutPartial wtr sbom) ;;; ret (Some ErrWrite)
  else emit (EvStdout wtr sbom) ;;; ret None.

(** [RunE] of the [generate] command, with the values of the flags
    [--format] and [--namespace]. *)
Definition RunE (outputFormat namespace : string) (args : list string)
  : M (option error) :=
  allRepos <~ parseAll args ;;
  if decide (outputFormat = "spdx") then
    sbom <~ buildSbom allRepos namespace creator ;;
    writeDocument TagValue sbom
  else if decide (outputFormat = "spdx-json") then
    sbom <~ buildSbom allRepos namespace creator ;;
    writeDocument Json sbom
  else ret (Some (ErrUnknownFormat outputFormat)).

End Generate.

(** ** Worked inputs *)

Module Demo.
Import GoStrings.

(** Modelled from the spec: the table [licenseFileNames] is declared
    outside [generate.go]; section 4.3 names [LICENSE],
    [LICENSE.txt] and [COPYING] as members. *)
Definition licenseFileNames : gset string :=
  {[ "LICENSE"; "LICENSE.txt"; "COPYING" ]}.

Definition mit_text : string := "MIT License full text".
Definition notes_text : string := "release notes quoting part of the MIT License".
Definition apache_text : string := "Apache License 2.0 full text".

(** A scanner that knows three files. *)
Definition scan (content : string) : Coverage :=
  if decide (content = mit_text) then mkCoverage 100 [mkMatch "MIT"]
  else if decide (content = apache_text) then mkCoverage 98.5 [mkMatch "Apache-2.0"]
  else if decide (content = notes_text) then mkCoverage 40 [mkMatch "MIT"]
  else mkCoverage 0 [].

Definition bar_url : string := "https://github.com/foo/bar#v1.2.3".

Definition bar_archive : Body :=
  BodyGzip [TarOther "pax_global_header";
            TarDir "bar-1.2.3";
            TarReg "bar-1.2.3/LICENSE" mit_text;
            TarReg "bar-1.2.3/main.go" "package main"] true.

(** The same repository asked for with a percent-escape in the
    revision. *)
Definition escaped_url : string := "https://github.com/foo/bar#v%41".

(** A repository whose path ends in [/.git]. *)
Definition hidden_url : string := "https://github.com/foo/.git#abc123".

Definition get (u : string) : HttpResult :=
  if decide (u = bar_url) then Response 200 bar_archive
  else if decide (u = escaped_url) then Response 200 bar_archive
  else if decide (u = hidden_url) then Response 200 bar_archive
  else if decide (u = "https://github.com/foo/gone#v1") then Response 404 BodyNotGzip
  else TransportError.

Definition plainOpen (path : string) : option GitRepo :=
  if decide (path = "./repo")
  then Some (mkGitRepo (Some ["git@github.com:foo/bar.git"]) (Some "0a1b2c3"))
  else if decide (path = "./lab")
  then Some (mkGitRepo (Some ["git@gitlab.com:foo/bar.git"]) (Some "0a1b2c3"))
  else None.

Definition suffix (n : nat) : string :=
  NilEmpty.string_of_uint (Nat.to_uint n).

Definition env : Env :=
  mkEnv plainOpen get scan licenseFileNames "/work" "/tmp" suffix
        "6ba7b810-9dad-11d1-80b4-00c04fd430c8" "2023-11-14T10:00:00Z"
        (fun _ => false) (fun _ => None) (fun _ _ => false).

(** The same collaborators on a machine where the calls of the command
    fail as told. *)
Definition failing (gzip_close : string -> bool)
           (remove_all : string -> option (list string -> bool))
           (write : OutputWriter -> Document -> bool) : Env :=
  mkEnv plainOpen get scan licenseFileNames "/work" "/tmp" suffix
        "6ba7b810-9dad-11d1-80b4-00c04fd430c8" "2023-11-14T10:00:00Z"
        gzip_close remove_all write.

(** No gzip reader closes. *)
Definition env_gzip_fails : Env :=
  failing (fun _ => true) (fun _ => None) (fun _ _ => false).

(** No removal goes through: of an extracted archive the top
    directory and the file [main.go] in it stay. *)
Definition env_remove_fails : Env :=
  failing (fun _ => false)
          (fun _ => Some (fun p => bool_decide (p = ["bar-1.2.3"])
                                   || bool_decide (p = ["bar-1.2.3"; "main.go"])))
          (fun _ _ => false).


Definition repo_tree : node :=
  Dir true
    [(".git", Dir true [("HEAD", File true "ref: refs/heads/main")]);
     ("LICENSE", File true mit_text);
     ("NOTES", File true notes_text);
     ("vendor", Dir true [("pkg", Dir true [("LICENSE", File true apache_text)])])].

Definition root : node :=
  Dir true
    [("tmp", Dir true []);
     ("work", Dir true [("lab", Dir true []); ("repo", repo_tree)])].

Definition world : World := mkWorld root 0 [].

(** The write-up of a local working copy and of a fetched archive as
    [parse] leaves them. *)
Definition local_repo : repoWithReader :=
  mkRepo (NetURL.mkURL "https" "" None "github.com" "/foo/bar.git" ""
            false false "" "0a1b2c3" "")
         "./repo" None.

Definition remote_repo : repoWithReader :=
  mkRepo (NetURL.mkURL "https" "" None "github.com" "/foo/bar" ""
            false false "" "v1.2.3" "")
         "/tmp/sbom0" (Some (mkCloser true "/tmp/sbom0")).

End Demo.


(** ** Vocabulary of the statements *)

(** A string without the separator ... *)
Definition slashless (s : string) : Prop := GoStrings.CountByte s "/" = 0.

(** ... and a name as a directory entry carries it. *)
Definition plain (s : string) : Prop :=
  s <> "" /\ s <> "." /\ s <> ".." /\ slashless s.

(** A tree whose entries all carry such names. *)
Fixpoint well_named (d : node) : Prop :=
  match d with
  | Dir _ entries =>
      (fix all (es : list (string * node)) : Prop :=
         match es with
         | [] => True
         | (n, d') :: es' => plain n /\ well_named d' /\ all es'
         end) entries
  | _ => True
  end.

(** The guards of the walk callback that a path passes before its
    file is opened: not below the top-level [.git], a recognised
    license file name, no directory named [vendor] above it. *)
Definition licenseRelevant (env : Env) (path : string) : bool :=
  negb (bool_decide (path = ".git") || GoStrings.HasPrefix path ".git/")
  && bool_decide (GoPath.Base path ∈ licenseFileNames env)
  && negb (existsb (fun part => bool_decide (part = "vendor"))
             (GoStrings.SplitByte (GoPath.Dir path) GoPath.Separator)).

(** Deduplication in first-seen order, in the words of the
    specification: an entry stays, its later copies go. *)
Fixpoint dedup_first_seen (findings : list string) : list string :=
  match findings with
  | [] => []
  | l :: rest => l :: filter (fun l' => l' <> l) (dedup_first_seen rest)
  end.

(** The declared expression and the concluded license, in the words
    of the specification. *)
Definition spec_declared (findings : list string) : string :=
  GoStrings.Join (dedup_first_seen findings) " AND ".


Definition spec_concluded (findings : list string) : string :=
  default unknownLicenseType
    (head (filter (fun l => l <> unknownLicenseType) (dedup_first_seen findings))).

(** The events of locator resolution: reading git metadata, creating
    the scratch directory, the retrieval, the extraction. *)
Definition resolution_event (e : event) : Prop :=
  match e with
  | EvGitOpen _ | EvMkdirTemp _ | EvHttpGet _ | EvMkdir _ | EvCreate _ => True
  | EvWalkDir _ | EvRemoveAll _ | EvStdout _ _ | EvStdoutPartial _ _ => False
  end.

(** [w'] is [w] after more events, all of them in [P]. *)
Definition extends_with (P : event -> Prop) (w w' : World) : Prop :=
  exists evs, trace w' = trace w ++ evs /\ Forall P evs.

(** Whatever way [m] ends, it only adds events in [P] to the trace. *)
Definition emits_only {A : Type} (P : event -> Prop) (m : M A) : Prop :=
  forall w o w', m w = (o, w') -> extends_with P w w'.

(** The world after the walk was announced. *)
Definition walked (r : repoWithReader) (w : World) : World :=
  mkWorld (fs w) (temps w) (trace w ++ [EvWalkDir (readerDir r)]).

(** What the walk over the tree of [r] reduces to in [w]. *)
Definition detected (env : Env) (r : repoWithReader) (w : World)
  : string * string :=
  reduceLicenses (WalkDir env (walkFn env) (fs w) (readerDir r) []).

(** The repository as [githubUrlToDownload] leaves it. *)
Definition trimmed (r : repoWithReader) : repoWithReader :=
  set_url r (githubUrlToDownload (url r)).2.

(** A repository whose release action holds the nil reader: its
    retrieval was answered with a status other than 200. *)
Definition nil_reader (r : repoWithReader) : Prop :=
  exists dir, close r = Some (mkCloser false dir).


(** The tar entries the extraction passes over. *)
Definition tar_skipped (e : TarEntry) : bool :=
  match e with
  | TarOther _ => true
  | _ => false
  end.

(** An argument that [parse] takes for a path to a working copy. *)
Definition local_form (repoWithRef : string) : bool :=
  GoStrings.HasPrefix repoWithRef "/" || GoStrings.HasPrefix repoWithRef ".".

(** A tree that holds no regular file under a recognised license
    file name. *)
Fixpoint no_license_file (env : Env) (d : node) : Prop :=
  match d with
  | Dir _ entries =>
      (fix all (es : list (string * node)) : Prop :=
         match es with
         | [] => True
         | (n, File _ _) :: es' => (n ∉ licenseFileNames env) /\ all es'
         | (_, d') :: es' => no_license_file env d' /\ all es'
         end) entries
  | _ => True
  end.

(** What the package of a repository shows of its locator. *)
Definition describes (r : repoWithReader) (pkg : Package) : Prop :=
  PackageName pkg = GoPath.Base (NetURL.Path (url (trimmed r)))
  /\ PackageSPDXIdentifier pkg = PackageName pkg
  /\ PackageVersion pkg = NetURL.Fragment (url r)
  /\ PackageDownloadLocation pkg = (githubUrlToDownload (url r)).1.

(** * Properties *)

(** ** The model at work *)

Example Clean_ex1 : GoPath.Clean "a/b/../c/./d//" = "a/c/d".
Proof. reflexivity. Qed.
Example Clean_ex2 : GoPath.Clean "/../a" = "/a".
Proof. reflexivity. Qed.
Example Clean_ex3 : GoPath.Clean "../../a/.." = "../..".
Proof. reflexivity. Qed.
Example Dir_ex1 : GoPath.Dir "vendor/pkg/LICENSE" = "vendor/pkg".
Proof. reflexivity. Qed.
Example Dir_ex2 : GoPath.Dir "LICENSE" = ".".
Proof. reflexivity. Qed.
Example Base_ex1 : GoPath.Base "/foo/bar" = "bar".
Proof. reflexivity. Qed.
Example Base_ex2 : GoPath.Base "/foo/bar//" = "bar".
Proof. reflexivity. Qed.
Example Base_ex3 : GoPath.Base "///" = "/".
Proof. reflexivity. Qed.
Example Join2_ex : GoPath.Join2 "." "LICENSE" = "LICENSE".
Proof. reflexivity. Qed.
Example Replace1_ex :
  GoStrings.Replace1 "git@github.com:foo/bar.git" "git@github.com:" "https://github.com/"
  = "https://github.com/foo/bar.git".
Proof. reflexivity. Qed.
Example TrimSuffix_ex : GoStrings.TrimSuffix "/foo/bar.git" ".git" = "/foo/bar".
Proof. reflexivity. Qed.
Example Split_ex : GoStrings.SplitByte "vendor/pkg" "/" = ["vendor"; "pkg"].
Proof. reflexivity. Qed.

Example Parse_ex1 :
  NetURL.Parse "https://github.com/foo/bar.git#abc123"
  = Some (NetURL.mkURL "https" "" None "github.com" "/foo/bar.git" "" false false "" "abc123" "").
Proof. vm_compute. reflexivity. Qed.
Example Parse_ex2 : NetURL.Parse "git@gitlab.com:foo/bar.git#abc" = None.
Proof. vm_compute. reflexivity. Qed.
Example Parse_ex3 : NetURL.Parse "github.com/foo/bar#v1.2.1"
  = Some (NetURL.mkURL "" "" None "" "github.com/foo/bar" "" false false "" "v1.2.1" "").
Proof. vm_compute. reflexivity. Qed.
Example Parse_ex4 : NetURL.URL_String <$> NetURL.Parse "https://user:pw@github.com:443/foo%20x/bar?q=1#v%41"
  = Some "https://user:pw@github.com:443/foo%20x/bar?q=1#v%41".
Proof. vm_compute. reflexivity. Qed.
Example Parse_ex5 : NetURL.Parse "ssh://git@github.com/foo/bar.git#abc"
  = Some (NetURL.mkURL "ssh" "" (Some (NetURL.mkUserinfo "git" "" false)) "github.com" "/foo/bar.git" "" false false "" "abc" "").
Proof. vm_compute. reflexivity. Qed.

Example demo_parse_local :
  parse Demo.env "./repo" Demo.world
  = (Ret (Ok Demo.local_repo), mkWorld Demo.root 0 [EvGitOpen "./repo"]).
Proof. vm_compute. reflexivity. Qed.

Example demo_parse_remote :
  fst (parse Demo.env Demo.bar_url Demo.world) = Ret (Ok Demo.remote_repo)
  /\ trace (snd (parse Demo.env Demo.bar_url Demo.world))
     = [EvMkdirTemp "/tmp/sbom0"; EvHttpGet Demo.bar_url;
        EvMkdir "/tmp/sbom0/bar-1.2.3"; EvCreate "/tmp/sbom0/bar-1.2.3/LICENSE";
        EvCreate "/tmp/sbom0/bar-1.2.3/main.go"].
Proof. vm_compute. split; reflexivity. Qed.

Example demo_license_local :
  fst (getLicenseFromReader Demo.env (Some Demo.local_repo) Demo.world)
  = Ret ("MIT", "MIT").
Proof. vm_compute. reflexivity. Qed.

Example demo_license_local_world :
  getLicenseFromReader Demo.env (Some Demo.local_repo) Demo.world
  = (Ret ("MIT", "MIT"), walked Demo.local_repo Demo.world).
Proof. vm_compute. reflexivity. Qed.

(** The end-to-end scenario of the specification: one repository,
    format [spdx-json]. *)
Example demo_spdx_json :
  exists w,
    RunE Demo.env "spdx-json" defaultNamespace [Demo.bar_url] Demo.world
    = (Ret None, w)
    /\ last (trace w)
       = Some (EvStdout Json
                 (mkDocument "SPDX-2.3" "CC0-1.0" "DOCUMENT" "github-repo"
                    "https://github.com/lf-edge/eve/spdx-6ba7b810-9dad-11d1-80b4-00c04fd430c8"
                    "2023-11-14T10:00:00Z"
                    [mkCreator creator "Tool"]
                    [mkPackage "bar" "bar" "v1.2.3"
                       "https://github.com/foo/bar/archive/v1.2.3.tar.gz"
                       "MIT" "MIT"
                       [mkExternalRef "PACKAGE-MANAGER" "purl"
                          "pkg:generic/git?download_url=https://github.com/foo/bar#v1.2.3"]]))
    /\ FS.lookup (fs w) ["tmp"; "sbom0"] = None.
Proof. eexists. split; [|split]; vm_compute; reflexivity. Qed.

(** A retrieval answered with 404 leaves the nil reader behind, and
    the command panics when detection releases the repository. *)
Example demo_not_found_panics :
  (RunE Demo.env "spdx" defaultNamespace ["https://github.com/foo/gone#v1"]
     Demo.world).1 = Panic.
Proof. vm_compute. reflexivity. Qed.

(** A vendored license file does not show in the result of the walk
    over the working copy. *)
Example demo_walk_local :
  WalkDir Demo.env (walkFn Demo.env) Demo.root "./repo" [] = (None, ["MIT"]).
Proof. vm_compute. reflexivity. Qed.

(** ** Byte strings *)

Section StringFacts.
Import GoStrings.

Lemma app_cons (c : ascii) (s t : string) :
  String c s +:+ t = String c (s +:+ t).
Proof. reflexivity. Qed.

Lemma app_empty_l (s : string) : "" +:+ s = s.
Proof. reflexivity. Qed.

Lemma app_empty_r (s : string) : s +:+ "" = s.
Proof. induction s as [|c s IH]; [done|]. by rewrite app_cons, IH. Qed.

Lemma app_assoc_s (a b c : string) : (a +:+ b) +:+ c = a +:+ b +:+ c.
Proof. induction a as [|x a IH]; [done|]. by rewrite !app_cons, IH. Qed.

Lemma length_app_s (a b : string) :
  String.length (a +:+ b) = String.length a + String.length b.
Proof. induction a as [|x a IH]; [done|]. rewrite app_cons. simpl. by rewrite IH. Qed.

Lemma take_drop_s (n : nat) (s : string) : take n s +:+ drop n s = s.
Proof.
  revert s. induction n as [|n IH]; intros [|c s]; try done.
  simpl. by rewrite app_cons, IH.
Qed.

Lemma take_app_length (a b : string) : take (String.length a) (a +:+ b) = a.
Proof. induction a as [|x a IH]; [done|]. rewrite app_cons. simpl. by rewrite IH. Qed.

Lemma drop_app_length (a b : string) : drop (String.length a) (a +:+ b) = b.
Proof. induction a as [|x a IH]; [done|]. by rewrite app_cons. Qed.

Lemma length_take_le (n : nat) (s : string) :
  n <= String.length s -> String.length (take n s) = n.
Proof.
  revert s. induction n as [|n IH]; intros [|c s] Hn; simpl in *; try done; try lia.
  rewrite IH; lia.
Qed.

Lemma HasPrefix_app (p s : string) : HasPrefix (p +:+ s) p = true.
Proof.
  induction p as [|c p IH]; [done|].
  rewrite app_cons. simpl. by rewrite Ascii.eqb_refl, IH.
Qed.

Lemma HasPrefix_spec (s p : string) :
  HasPrefix s p = true <-> exists t, s = p +:+ t.
Proof.
  revert s. induction p as [|c p IH]; intros s.
  - split; [intros _; by exists s | done].
  - destruct s as [|d s]; simpl.
    + split; [done | intros [t Ht]; by rewrite app_cons in Ht].
    + rewrite andb_true_iff, Ascii.eqb_eq, IH. split.
      * intros [-> [t ->]]. by exists t.
      * intros [t Ht]. rewrite app_cons in Ht. injection Ht as -> ->. eauto.
Qed.

Lemma HasSuffix_app (p suffix : string) : HasSuffix (p +:+ suffix) suffix = true.
Proof.
  unfold HasSuffix. rewrite length_app_s.
  replace (String.length p + String.length suffix - String.length suffix)
    with (String.length p) by lia.
  rewrite drop_app_length, String.eqb_refl, andb_true_r.
  apply Nat.leb_le. lia.
Qed.

Lemma HasSuffix_spec (s suffix : string) :
  HasSuffix s suffix = true <-> exists p, s = p +:+ suffix.
Proof.
  split.
  - unfold HasSuffix. rewrite andb_true_iff, Nat.leb_le, String.eqb_eq.
    intros [_ Hd]. exists (take (String.length s - String.length suffix) s).
    rewrite <- Hd at 2. by rewrite take_drop_s.
  - intros [p ->]. apply HasSuffix_app.
Qed.

(** [TrimSuffix] removes a suffix that is there ... *)
Lemma TrimSuffix_app (p suffix : string) : TrimSuffix (p +:+ suffix) suffix = p.
Proof.
  unfold TrimSuffix. rewrite HasSuffix_app, length_app_s.
  replace (String.length p + String.length suffix - String.length suffix)
    with (String.length p) by lia.
  apply take_app_length.
Qed.

(** ... and leaves every other string alone. *)
Lemma TrimSuffix_none (s suffix : string) :
  (forall p, s <> p +:+ suffix) -> TrimSuffix s suffix = s.
Proof.
  intros Hno. unfold TrimSuffix.
  destruct (HasSuffix s suffix) eqn:Hs; [|done].
  apply HasSuffix_spec in Hs as [p ->]. by destruct (Hno p).
Qed.

Lemma Replace1_unfold (s old new : string) :
  Replace1 s old new
  = if HasPrefix s old then new +:+ drop (String.length old) s
    else match s with
         | EmptyString => EmptyString
         | String c s' => String c (Replace1 s' old new)
         end.
Proof. by destruct s. Qed.

Lemma Replace1_prefix (old new rest : string) :
  Replace1 (old +:+ rest) old new = new +:+ rest.
Proof. by rewrite Replace1_unfold, HasPrefix_app, drop_app_length. Qed.

Lemma Index_unfold (s substr : string) :
  Index s substr
  = if HasPrefix s substr then Some 0
    else match s with
         | EmptyString => None
         | String _ s' => S <$> Index s' substr
         end.
Proof. by destruct s. Qed.

Lemma Replace1_absent (s old new : string) :
  Index s old = None -> Replace1 s old new = s.
Proof.
  induction s as [|c s IH]; rewrite Index_unfold, Replace1_unfold;
    destruct (HasPrefix _ old); try done.
  destruct (Index s old); [done|]. intros _. by rewrite IH.
Qed.

Lemma fold_append_IDs (ms : list Match) (licenses : list string) :
  fold_left (fun ls m => ls ++ [ID m]) ms licenses = licenses ++ (ID <$> ms).
Proof.
  revert licenses. induction ms as [|m ms IH]; intros licenses; simpl.
  - by rewrite app_nil_r.
  - by rewrite IH, <- app_assoc.
Qed.

End StringFacts.

(** ** Paths *)

Section PathFacts.
Import GoStrings.

Lemma slashless_cons (c : ascii) (s : string) :
  slashless (String c s) <-> c <> "/"%char /\ slashless s.
Proof.
  unfold slashless. simpl. destruct (Ascii.eqb_spec c "/"%char) as [->|Hc].
  - split; [lia | by intros [[] _]].
  - split; [intros; split; [done | lia] | intros [_ ?]; lia].
Qed.

Lemma slashless_app (a b : string) :
  slashless (a +:+ b) <-> slashless a /\ slashless b.
Proof.
  induction a as [|c a IH].
  - rewrite app_empty_l. by split; [|intros [_ ?]].
  - rewrite app_cons, !slashless_cons, IH. tauto.
Qed.

Lemma plain_slashless (s : string) : plain s -> slashless s.
Proof. by intros (_ & _ & _ & ?). Qed.

Lemma HasPrefix_slash_slashless (s t : string) :
  slashless s -> s <> "" -> HasPrefix (s +:+ t) "/" = false.
Proof.
  destruct s as [|c s]; [done|]. intros [Hc _]%slashless_cons _.
  rewrite app_cons. simpl. rewrite andb_true_r. by apply Ascii.eqb_neq.
Qed.

Lemma LastIndex_unfold (s substr : string) :
  LastIndex s substr
  = match s with
    | EmptyString => if HasPrefix s substr then Some 0 else None
    | String _ s' =>
        match LastIndex s' substr with
        | Some i => Some (S i)
        | None => if HasPrefix s substr then Some 0 else None
        end
    end.
Proof. by destruct s. Qed.

Lemma LastIndex_slashless (s : string) :
  slashless s -> LastIndex s "/" = None.
Proof.
  induction s as [|c s IH]; [done|]. intros [Hc Hs]%slashless_cons.
  rewrite LastIndex_unfold, (IH Hs). simpl. rewrite andb_true_r.
  by apply Ascii.eqb_neq in Hc as ->.
Qed.

Lemma LastIndex_last_slash (p seg : string) :
  slashless seg -> LastIndex (p +:+ "/" +:+ seg) "/" = Some (String.length p).
Proof.
  intros Hseg. induction p as [|c p IH].
  - rewrite app_empty_l, app_cons, app_empty_l, LastIndex_unfold.
    by rewrite (LastIndex_slashless _ Hseg).
  - by rewrite app_cons, LastIndex_unfold, IH.
Qed.

Lemma strip_trailing_slashes_slashless (s : string) :
  slashless s -> GoPath.strip_trailing_slashes s = s.
Proof.
  induction s as [|c s IH]; [done|]. intros [Hc Hs]%slashless_cons.
  simpl. rewrite (IH Hs). apply Ascii.eqb_neq in Hc. unfold GoPath.Separator.
  rewrite Hc. by destruct s.
Qed.

Lemma strip_trailing_slashes_app (a b : string) :
  slashless b -> b <> "" -> GoPath.strip_trailing_slashes (a +:+ b) = a +:+ b.
Proof.
  intros Hb Hne. induction a as [|c a IH].
  - by apply strip_trailing_slashes_slashless.
  - rewrite app_cons. simpl. rewrite IH.
    destruct (a +:+ b) eqn:Hab; [|done].
    destruct a; [by rewrite app_empty_l in Hab | by rewrite app_cons in Hab].
Qed.

(** [filepath.Base] of a path that ends in a separator and a name is
    the name. *)
Lemma Base_last_segment (p seg : string) :
  slashless seg -> seg <> "" -> GoPath.Base (p +:+ "/" +:+ seg) = seg.
Proof.
  intros Hseg Hne. unfold GoPath.Base.
  destruct (decide (p +:+ "/" +:+ seg = "")) as [He|_].
  { destruct p; [by rewrite app_empty_l in He | by rewrite app_cons in He]. }
  rewrite <- app_assoc_s, strip_trailing_slashes_app by done.
  rewrite app_assoc_s. unfold GoPath.last_separator.
  rewrite LastIndex_last_slash by done.
  replace (S (String.length p)) with (String.length (p +:+ "/"))
    by (rewrite length_app_s; simpl; lia).
  rewrite <- app_assoc_s, drop_app_length. by destruct (decide (seg = "")).
Qed.

Lemma Base_slashless (s : string) :
  slashless s -> s <> "" -> GoPath.Base s = s.
Proof.
  intros Hs Hne. unfold GoPath.Base. destruct (decide (s = "")); [done|].
  rewrite strip_trailing_slashes_slashless by done.
  unfold GoPath.last_separator. rewrite LastIndex_slashless by done.
  by destruct (decide (s = "")).
Qed.

Lemma SplitByte_slashless (e : string) :
  slashless e -> SplitByte e "/" = [e].
Proof.
  induction e as [|c e IH]; [done|]. intros [Hc He]%slashless_cons.
  simpl. apply Ascii.eqb_neq in Hc as ->. by rewrite (IH He).
Qed.

Lemma SplitByte_app (e rest : string) :
  slashless e ->
  SplitByte (e +:+ "/" +:+ rest) "/" = e :: SplitByte rest "/".
Proof.
  induction e as [|c e IH]; [done|]. intros [Hc He]%slashless_cons.
  rewrite app_cons. simpl. apply Ascii.eqb_neq in Hc as ->. by rewrite (IH He).
Qed.

Lemma Join_cons (e : string) (es : list string) (sep : string) :
  es <> [] -> Join (e :: es) sep = e +:+ sep +:+ Join es sep.
Proof. by destruct es. Qed.

Lemma Join_snoc (es : list string) (e sep : string) :
  es <> [] -> Join (es ++ [e]) sep = Join es sep +:+ sep +:+ e.
Proof.
  induction es as [|x es IH]; [done|]. intros _.
  destruct es as [|y es]; [done|].
  change ((x :: y :: es) ++ [e]) with (x :: ((y :: es) ++ [e])).
  rewrite !Join_cons, IH by done. by rewrite !app_assoc_s.
Qed.

Lemma SplitByte_Join (ds : list string) :
  ds <> [] -> Forall slashless ds -> SplitByte (Join ds "/") "/" = ds.
Proof.
  induction ds as [|d ds IH]; [done|]. intros _ Hall.
  apply Forall_cons in Hall as [Hd Hds].
  destruct ds as [|d' ds]; [by apply SplitByte_slashless|].
  rewrite Join_cons, SplitByte_app, IH by done. done.
Qed.

Lemma clean_step_plain (rooted : bool) (stack : list string) (e : string) :
  plain e -> GoPath.clean_step rooted stack e = e :: stack.
Proof.
  intros (H1 & H2 & H3 & _). unfold GoPath.clean_step.
  by repeat case_decide.
Qed.

Lemma fold_clean_step_plain (rooted : bool) (ds stack : list string) :
  Forall plain ds ->
  fold_left (GoPath.clean_step rooted) ds stack = rev ds ++ stack.
Proof.
  revert stack. induction ds as [|d ds IH]; intros stack Hall; [done|].
  apply Forall_cons in Hall as [Hd Hds]. simpl.
  rewrite clean_step_plain, IH by done. by rewrite <- app_assoc.
Qed.

Lemma Join_plain_nonempty (ds : list string) :
  ds <> [] -> Forall plain ds -> Join ds "/" <> "".
Proof.
  destruct ds as [|d ds]; [done|]. intros _ [(Hd & _) _]%Forall_cons.
  destruct ds; [done|]. rewrite Join_cons by done.
  destruct d; [done|]. by rewrite app_cons.
Qed.

Lemma HasPrefix_slash_Join (ds : list string) (t : string) :
  ds <> [] -> Forall plain ds -> HasPrefix (Join ds "/" +:+ t) "/" = false.
Proof.
  destruct ds as [|d ds]; [done|]. intros _ [(Hd & _ & _ & Hs) _]%Forall_cons.
  destruct ds.
  - by apply HasPrefix_slash_slashless.
  - rewrite Join_cons, app_assoc_s by done. by apply HasPrefix_slash_slashless.
Qed.

(** Cleaning a relative path made of names, with or without a
    trailing separator, gives the path of the names. *)
Lemma Clean_Join_plain (ds : list string) :
  ds <> [] -> Forall plain ds -> GoPath.Clean (Join ds "/") = Join ds "/".
Proof.
  intros Hne Hall. unfold GoPath.Clean.
  pose proof (Join_plain_nonempty ds Hne Hall) as HJ.
  pose proof (HasPrefix_slash_Join ds "" Hne Hall) as HP.
  rewrite app_empty_r in HP.
  destruct (decide (Join ds "/" = "")); [done|]. rewrite HP.
  unfold GoPath.Separator. rewrite SplitByte_Join; [|done|].
  - rewrite fold_clean_step_plain, app_nil_r, rev_involutive by done.
    by destruct (decide (Join ds "/" = "")).
  - eapply Forall_impl; [done|]. apply plain_slashless.
Qed.

Lemma Clean_Join_plain_slash (ds : list string) :
  ds <> [] -> Forall plain ds ->
  GoPath.Clean (Join ds "/" +:+ "/") = Join ds "/".
Proof.
  intros Hne Hall. unfold GoPath.Clean.
  pose proof (Join_plain_nonempty ds Hne Hall) as HJ.
  destruct (decide (Join ds "/" +:+ "/" = "")) as [He|_].
  { destruct (Join ds "/"); [done | by rewrite app_cons in He]. }
  rewrite HasPrefix_slash_Join by done.
  assert (SplitByte (Join ds "/" +:+ "/") GoPath.Separator = ds ++ [""]) as ->.
  { replace (Join ds "/" +:+ "/") with (Join (ds ++ [""]) "/")
      by (by rewrite Join_snoc).
    apply SplitByte_Join.
    - by destruct ds.
    - apply Forall_app. split; [|by apply Forall_singleton].
      eapply Forall_impl; [done|]. apply plain_slashless. }
  rewrite fold_left_app, (fold_clean_step_plain _ ds) by done. simpl.
  change (GoPath.clean_step false (rev ds ++ []) "") with (rev ds ++ []).
  rewrite app_nil_r, rev_involutive.
  by destruct (decide (Join ds "/" = "")).
Qed.

(** [filepath.Dir] of the path of a file below the directories [ds]
    is the path of [ds] ... *)
Lemma Dir_Join_plain (ds : list string) (name : string) :
  ds <> [] -> Forall plain ds -> slashless name ->
  GoPath.Dir (Join (ds ++ [name]) "/") = Join ds "/".
Proof.
  intros Hne Hall Hname. rewrite Join_snoc by done.
  unfold GoPath.Dir, GoPath.last_separator.
  rewrite LastIndex_last_slash by done.
  replace (S (String.length (Join ds "/")))
    with (String.length (Join ds "/" +:+ "/"))
    by (rewrite length_app_s; simpl; lia).
  rewrite <- app_assoc_s, take_app_length.
  by apply Clean_Join_plain_slash.
Qed.

(** ... so splitting it gives [ds] back. *)
Lemma Split_Dir_Join_plain (ds : list string) (name : string) :
  ds <> [] -> Forall plain ds -> slashless name ->
  SplitByte (GoPath.Dir (Join (ds ++ [name]) "/")) GoPath.Separator = ds.
Proof.
  intros Hne Hall Hname. rewrite Dir_Join_plain by done.
  apply SplitByte_Join; [done|].
  eapply Forall_impl; [done|]. apply plain_slashless.
Qed.

(** The paths [walkDir] builds: below the root [.] a name stands
    alone, below a directory it follows the separator. *)
Lemma Join2_dot (name : string) : plain name -> GoPath.Join2 "." name = name.
Proof.
  intros Hp. pose proof Hp as (Hne & _ & _ & Hs).
  unfold GoPath.Join2. simpl decide. cbv iota.
  unfold GoPath.Clean.
  destruct (decide ("." +:+ "/" +:+ name = "")) as [He|_]; [done|].
  change (HasPrefix ("." +:+ "/" +:+ name) "/") with false. cbv iota.
  unfold GoPath.Separator.
  rewrite (SplitByte_app "." name) by done.
  rewrite SplitByte_slashless by done. simpl.
  rewrite clean_step_plain by done. simpl.
  by destruct (decide (name = "")).
Qed.

Lemma Join2_Join_plain (ds : list string) (name : string) :
  ds <> [] -> Forall plain ds -> plain name ->
  GoPath.Join2 (Join ds "/") name = Join (ds ++ [name]) "/".
Proof.
  intros Hne Hall Hname. unfold GoPath.Join2.
  destruct (decide (Join ds "/" = "")) as [He|_].
  { by destruct (Join_plain_nonempty ds Hne Hall). }
  rewrite <- Join_snoc by done. apply Clean_Join_plain.
  - by destruct ds.
  - apply Forall_app. split; [done | by apply Forall_singleton].
Qed.

End PathFacts.

(** ** The reduction of the findings *)

Section ReduceFacts.
Import GoStrings.

(** The loop with the map [m] computes the first-seen deduplication,
    less what [m] already holds. *)
Lemma unique_from_filter (m : gset string) (licenses : list string) :
  unique_from m licenses
  = filter (fun l => l ∉ m) (dedup_first_seen licenses).
Proof.
  revert m. induction licenses as [|l rest IH]; intros m; [done|].
  simpl. destruct (decide (l ∈ m)) as [Hin|Hnin].
  - rewrite filter_cons_False by (intros ?; done).
    rewrite IH, list_filter_filter. apply list_filter_iff.
    intros x. split; [|tauto]. intros Hx. split; [done|]. by intros ->.
  - rewrite filter_cons_True by done. f_equal.
    rewrite IH, list_filter_filter. apply list_filter_iff.
    intros x. rewrite elem_of_union, elem_of_singleton. tauto.
Qed.

Lemma unique_dedup (licenses : list string) :
  unique licenses = dedup_first_seen licenses.
Proof.
  unfold unique. rewrite unique_from_filter.
  induction (dedup_first_seen licenses) as [|x l IH]; [done|].
  rewrite filter_cons_True by set_solver. by rewrite IH.
Qed.

Lemma firstKnown_head (uniqueLicenses : list string) :
  firstKnown uniqueLicenses
  = default "" (head (filter (fun l => l <> unknownLicenseType) uniqueLicenses)).
Proof.
  induction uniqueLicenses as [|l rest IH]; [done|]. simpl.
  destruct (decide (l = unknownLicenseType)) as [->|Hl].
  - by rewrite filter_cons_False by (intros ?; done).
  - by rewrite filter_cons_True.
Qed.

Lemma dedup_first_seen_subset (findings : list string) (l : string) :
  l ∈ dedup_first_seen findings -> l ∈ findings.
Proof.
  revert l. induction findings as [|x rest IH]; intros l; [done|]. simpl.
  rewrite !elem_of_cons, list_elem_of_filter. intros [->|[_ Hl]]; auto.
Qed.

Lemma dedup_first_seen_NoDup (findings : list string) :
  NoDup (dedup_first_seen findings).
Proof.
  induction findings as [|x rest IH]; simpl; constructor.
  - rewrite list_elem_of_filter. by intros [? _].
  - by apply NoDup_filter.
Qed.

Lemma dedup_first_seen_elem (findings : list string) (l : string) :
  l ∈ findings -> l ∈ dedup_first_seen findings.
Proof.
  induction findings as [|x rest IH]; [done|]. simpl.
  rewrite !elem_of_cons, list_elem_of_filter.
  destruct (decide (l = x)); [auto|]. intros [?|?]; [done | auto].
Qed.

(** What [getLicenseFromReader] returns for a walk that ended
    without error on a non-empty list of findings. *)
Lemma reduceLicenses_nonempty (findings : list string) :
  findings <> [] ->
  reduceLicenses (None, findings)
  = (Join (dedup_first_seen findings) " AND ",
     let known := firstKnown (dedup_first_seen findings) in
     if decide (known = "") then unknownLicenseType else known).
Proof.
  destruct findings as [|l rest]; [done|]. intros _.
  unfold reduceLicenses. by rewrite unique_dedup.
Qed.

End ReduceFacts.

(** ** The walk *)

Section WalkFacts.
Import GoStrings.
Variable env : Env.

(** A file that passes the guards is scanned, and the findings are
    the marker of low coverage, if any, then every match. *)
Lemma walkFn_scanned (path content : string) (licenses : list string) :
  licenseRelevant env path = true ->
  walkFn env path (inl (File true content)) licenses
  = (None,
     let cov := licensecheck_Scan env content in
     (if PrimFloat.ltb (Percent cov) coverageThreshold
      then licenses ++ [unknownLicenseType] else licenses)
     ++ (ID <$> Matches cov)).
Proof.
  unfold licenseRelevant, walkFn.
  rewrite !andb_true_iff, !negb_true_iff. intros [[-> Hname] ->].
  rewrite Hname. simpl. by rewrite fold_append_IDs.
Qed.

(** An entry below a directory named [vendor] leaves the findings as
    they are, whatever it is. *)
Lemma walkFn_vendored (ds : list string) (name : string) (d : node)
      (licenses : list string) :
  Forall plain ds -> slashless name -> "vendor" ∈ ds ->
  walkFn env (Join (ds ++ [name]) "/") (inl d) licenses = (None, licenses).
Proof.
  intros Hall Hname Hv. unfold walkFn.
  destruct (_ || _); [done|]. destruct d as [readable content | | ]; try done.
  destruct (negb _); [done|].
  rewrite Split_Dir_Join_plain; [|by intros ->; set_solver|done..].
  assert (existsb (fun part => bool_decide (part = "vendor")) ds = true) as ->;
    [|done].
  apply existsb_exists. exists "vendor". split; [|done].
  by apply list_elem_of_In.
Qed.

End WalkFacts.

(** ** Trees *)

Section TreeFacts.
Import GoStrings.
Variable env : Env.

Lemma node_ind_entries (P : node -> Prop) :
  (forall r c, P (File r c)) ->
  P Symlink ->
  (forall r es, Forall (fun e => P e.2) es -> P (Dir r es)) ->
  forall d, P d.
Proof.
  intros HF HS HD. fix IH 1. intros [r c| |r es]; [apply HF | apply HS |].
  apply HD. induction es as [|[n d] es IHes]; constructor; [apply IH | apply IHes].
Qed.

Lemma well_named_Dir (r : bool) (es : list (string * node)) :
  well_named (Dir r es) <-> Forall (fun e => plain e.1 /\ well_named e.2) es.
Proof.
  simpl. induction es as [|[n d] es IH].
  - split; [constructor | done].
  - rewrite Forall_cons, <- IH. simpl. tauto.
Qed.

Lemma walkDir_unfold {S : Type} (fn : string -> visit -> S -> option error * S)
      (name : string) (d : node) (s : S) :
  walkDir fn name d s
  = match fn name (inl d) s with
    | (Some e, s') => (Some e, s')
    | (None, s') =>
        match d with
        | Dir readable entries =>
            if negb readable then fn name (inr (ErrReadDir name)) s'
            else walkEntries (walkDir fn) name entries s'
        | _ => (None, s')
        end
    end.
Proof. by destruct d. Qed.

(** The walk below a directory named [vendor] adds no finding. *)
Lemma walkDir_below_vendor (d : node) :
  forall (ds : list string) (name : string) (licenses : list string),
    well_named d -> Forall plain ds -> plain name -> "vendor" ∈ ds ->
    (walkDir (walkFn env) (Join (ds ++ [name]) "/") d licenses).2 = licenses.
Proof.
  induction d as [r c| |r es IH] using node_ind_entries;
    intros ds name licenses Hwn Hall Hname Hv;
    rewrite walkDir_unfold, walkFn_vendored
      by (done || by apply plain_slashless); try done.
  destruct (negb r); [done|].
  apply well_named_Dir in Hwn.
  assert (Forall plain (ds ++ [name])) as Hall'
    by (apply Forall_app; split; [done | by apply Forall_singleton]).
  assert ("vendor" ∈ ds ++ [name]) as Hv' by (apply elem_of_app; auto).
  assert (ds ++ [name] <> []) as Hne by (by destruct ds).
  clear Hall Hv. revert licenses.
  induction es as [|[n1 d1] es IHes]; intros licenses; [done|].
  apply Forall_cons in IH as [IH1 IH]. apply Forall_cons in Hwn as [[Hn1 Hd1] Hwn].
  simpl in *. rewrite Join2_Join_plain by done.
  specialize (IH1 (ds ++ [name]) n1 licenses Hd1 Hall' Hn1 Hv').
  destruct (walkDir _ _ d1 licenses) as [[e|] ls]; simpl in IH1; subst ls; [done|].
  by apply IHes.
Qed.

(** *** Removal *)

Lemma lookup_entry_put (name : string) (d : node) (es : list (string * node)) :
  FS.lookup_entry name (FS.put_entry name d es) = Some d.
Proof.
  induction es as [|[n d'] es IH]; simpl.
  - by rewrite decide_True.
  - destruct (decide (n = name)) as [->|Hn]; simpl.
    + by rewrite decide_True.
    + destruct (String.ltb name n); simpl.
      * by rewrite decide_True.
      * by rewrite decide_False.
Qed.

Lemma lookup_entry_remove (name : string) (es : list (string * node)) :
  FS.lookup_entry name (FS.remove_entry name es) = None.
Proof.
  induction es as [|[n d'] es IH]; simpl; [done|].
  destruct (decide (n = name)) as [->|Hn]; [done|]. simpl.
  by rewrite decide_False.
Qed.

Lemma lookup_app (d : node) (segs segs' : list string) :
  FS.lookup d (segs ++ segs') = FS.lookup d segs ≫= fun d' => FS.lookup d' segs'.
Proof.
  revert d. induction segs as [|s segs IH]; intros d; [done|].
  simpl. destruct d as [| |r es]; try done.
  destruct (FS.lookup_entry s es); simpl; [apply IH | done].
Qed.

Lemma in_dir_remove_lookup (name : string) (segs : list string) (d d' : node) :
  FS.in_dir (fun es => Some (FS.remove_entry name es)) d segs = Some d' ->
  FS.lookup d' (segs ++ [name]) = None.
Proof.
  revert d d'. induction segs as [|s segs IH]; intros d d'.
  - destruct d as [| |r es]; simpl; try done. intros [= <-]. simpl.
    by rewrite lookup_entry_remove.
  - destruct d as [| |r es]; simpl; try done.
    destruct (FS.lookup_entry s es) as [c|]; simpl; [|done].
    destruct (FS.in_dir _ c segs) as [c'|] eqn:Hc; simpl; [|done].
    intros [= <-]. simpl. rewrite lookup_entry_put. simpl. by eapply IH.
Qed.

Lemma in_dir_remove_None (name : string) (segs : list string) (d : node) :
  FS.in_dir (fun es => Some (FS.remove_entry name es)) d segs = None ->
  FS.lookup d (segs ++ [name]) = None.
Proof.
  revert d. induction segs as [|s segs IH]; intros d.
  - by destruct d.
  - destruct d as [| |r es]; simpl; try done.
    destruct (FS.lookup_entry s es) as [c|]; simpl; [|done].
    destruct (FS.in_dir _ c segs) as [c'|] eqn:Hc; simpl; [done|].
    intros _. by apply IH.
Qed.

(** After [os.RemoveAll] nothing is left at the path. *)
Lemma lookup_removeAll (root : node) (segs : list string) :
  segs <> [] -> FS.lookup (FS.removeAll root segs) segs = None.
Proof.
  intros Hne. unfold FS.removeAll.
  destruct (exists_last Hne) as (parent & name & ->).
  rewrite last_snoc, removelast_last.
  destruct (FS.in_dir _ root parent) as [root'|] eqn:Hin; simpl.
  - by eapply in_dir_remove_lookup.
  - by apply in_dir_remove_None.
Qed.

End TreeFacts.

(** ** Effects *)

Section EffectFacts.
Variable P : event -> Prop.

Lemma extends_with_refl (w : World) : extends_with P w w.
Proof. exists []. by rewrite app_nil_r. Qed.

Lemma extends_with_trans (w1 w2 w3 : World) :
  extends_with P w1 w2 -> extends_with P w2 w3 -> extends_with P w1 w3.
Proof.
  intros (e1 & H1 & HP1) (e2 & H2 & HP2). exists (e1 ++ e2).
  rewrite H2, H1, <- app_assoc. split; [done|]. by apply Forall_app.
Qed.

Lemma emits_only_ret {A} (a : A) : emits_only P (ret a).
Proof. intros w o w' [= <- <-]. apply extends_with_refl. Qed.

Lemma emits_only_fatal {A} (f : fatal) : emits_only P (@log_Fatalf A f).
Proof. intros w o w' [= <- <-]. apply extends_with_refl. Qed.

Lemma emits_only_panic {A} : emits_only P (@panic A).
Proof. intros w o w' [= <- <-]. apply extends_with_refl. Qed.

Lemma emits_only_get_fs : emits_only P get_fs.
Proof. intros w o w' [= <- <-]. apply extends_with_refl. Qed.

Lemma emits_only_put_fs (n : node) : emits_only P (put_fs n).
Proof. intros w o w' [= <- <-]. exists []. by rewrite app_nil_r. Qed.

Lemma emits_only_next_temp : emits_only P next_temp.
Proof. intros w o w' [= <- <-]. exists []. by rewrite app_nil_r. Qed.

Lemma emits_only_emit (e : event) : P e -> emits_only P (emit e).
Proof. intros He w o w' [= <- <-]. exists [e]. split; [done|]. by apply Forall_singleton. Qed.

Lemma emits_only_bind {A B} (m : M A) (k : A -> M B) :
  emits_only P m -> (forall a, emits_only P (k a)) -> emits_only P (bind m k).
Proof.
  intros Hm Hk w o w'. unfold bind.
  destruct (m w) as [[a|f|] w1] eqn:Hmw; intros Hr.
  - eapply extends_with_trans; [by eapply Hm | by eapply Hk].
  - injection Hr as <- <-. by eapply Hm.
  - injection Hr as <- <-. by eapply Hm.
Qed.

End EffectFacts.

Ltac emits_only_step :=
  lazymatch goal with
  | |- emits_only _ (ret _) => apply emits_only_ret
  | |- emits_only _ (log_Fatalf _) => apply emits_only_fatal
  | |- emits_only _ panic => apply emits_only_panic
  | |- emits_only _ get_fs => apply emits_only_get_fs
  | |- emits_only _ (put_fs _) => apply emits_only_put_fs
  | |- emits_only _ next_temp => apply emits_only_next_temp
  | |- emits_only _ (emit _) => apply emits_only_emit; exact I
  | |- emits_only _ (bind _ _) => apply emits_only_bind; [|intros ?]
  end.

(** ** Locator resolution *)

Section ResolutionFacts.
Import GoStrings.
Variable env : Env.

Lemma os_MkdirTemp_events : emits_only resolution_event (os_MkdirTemp env).
Proof.
  unfold os_MkdirTemp. repeat emits_only_step.
  destruct (FS.mkdir _ _); repeat emits_only_step.
Qed.

Lemma extract_entries_events (path : string) (entries : list TarEntry) :
  emits_only resolution_event (extract_entries env path entries).
Proof.
  induction entries as [|[name|name content|name] rest IH]; simpl;
    repeat emits_only_step; try done.
  - destruct (FS.mkdir _ _); repeat emits_only_step. done.
  - destruct (FS.create _ _ _); repeat emits_only_step. done.
Qed.

Lemma extractURLToPath_events (u path : string) :
  emits_only resolution_event (extractURLToPath env u path).
Proof.
  unfold extractURLToPath. repeat emits_only_step.
  destruct (http_Get env u) as [|status [|entries clean_end]];
    repeat emits_only_step; destruct (negb _); repeat emits_only_step.
  apply extract_entries_events.
Qed.

Lemma parse_events (repoWithRef : string) :
  emits_only resolution_event (parse env repoWithRef).
Proof.
  unfold parse. destruct (_ || _).
  - repeat emits_only_step.
    destruct (git_PlainOpen env repoWithRef) as [[[[|origin urls]|] [hash|]]|];
      simpl; repeat emits_only_step.
  - emits_only_step; [apply os_MkdirTemp_events|].
    destruct a as [tmpDir|e]; repeat emits_only_step.
    + apply extractURLToPath_events.
    + destruct a as [[e|] gz]; repeat emits_only_step.
Qed.

(** Resolving the arguments only reads git metadata, creates scratch
    directories, retrieves and extracts. *)
Lemma parseAll_events (args : list string) :
  emits_only resolution_event (parseAll env args).
Proof.
  induction args as [|repo rest IH]; simpl; repeat emits_only_step.
  - apply parse_events.
  - destruct a as [r|e]; repeat emits_only_step. done.
Qed.

(** With a format that is neither [spdx] nor [spdx-json] the command
    resolves its arguments and does nothing else. *)
Lemma RunE_unknown_format (outputFormat namespace : string)
      (args : list string) (w : World) :
  outputFormat <> "spdx" -> outputFormat <> "spdx-json" ->
  RunE env outputFormat namespace args w
  = match parseAll env args w with
    | (Ret _, w') => (Ret (Some (ErrUnknownFormat outputFormat)), w')
    | (Fatal f, w') => (Fatal f, w')
    | (Panic, w') => (Panic, w')
    end.
Proof.
  intros H1 H2. unfold RunE, bind.
  destruct (parseAll env args w) as [[repos|f|] w']; try done.
  by rewrite !decide_False.
Qed.

(** The URL [parse] hands to [url.Parse] for a working copy whose
    [origin] starts with [git@github.com:]. *)
Lemma localRepoURL_github (rest hash : string) :
  localRepoURL ("git@github.com:" +:+ rest) hash
  = "https://github.com/" +:+ rest +:+ "#" +:+ hash.
Proof. unfold localRepoURL. by rewrite Replace1_prefix, app_assoc_s. Qed.

Lemma localRepoURL_other (origin hash : string) :
  Index origin "git@github.com:" = None ->
  localRepoURL origin hash = origin +:+ "#" +:+ hash.
Proof. intros H. unfold localRepoURL. by rewrite Replace1_absent. Qed.

Lemma parse_local (repoWithRef origin hash : string) (urls : list string)
      (w : World) :
  HasPrefix repoWithRef "/" || HasPrefix repoWithRef "." = true ->
  git_PlainOpen env repoWithRef
  = Some (mkGitRepo (Some (origin :: urls)) (Some hash)) ->
  parse env repoWithRef w
  = (Ret (parse_url repoWithRef (localRepoURL origin hash) repoWithRef None),
     mkWorld (fs w) (temps w) (trace w ++ [EvGitOpen repoWithRef])).
Proof. intros Hp Hg. unfold parse, bind, emit. by rewrite Hp, Hg. Qed.

End ResolutionFacts.

(** ** The revision of a remote input *)

Section FragmentFacts.
Import GoStrings.
Variable env : Env.

Lemma Index_first_byte (base rest : string) (c : ascii) :
  CountByte base c = 0 ->
  Index (base +:+ String c rest) (String c "") = Some (String.length base).
Proof.
  induction base as [|x base IH]; intros Hc.
  - rewrite app_empty_l, Index_unfold. simpl. by rewrite Ascii.eqb_refl.
  - simpl in Hc. destruct (Ascii.eqb x c) eqn:Hx; [lia|].
    rewrite app_cons, Index_unfold. simpl. rewrite Hx. simpl.
    by rewrite IH by lia.
Qed.

Lemma Cut_first_byte (base rest : string) (c : ascii) :
  CountByte base c = 0 ->
  Cut (base +:+ String c rest) (String c "") = (base, rest, true).
Proof.
  intros Hc. unfold Cut. rewrite Index_first_byte by done.
  rewrite take_app_length. simpl String.length.
  replace (String.length base + 1) with (String.length (base +:+ String c ""))
    by (rewrite length_app_s; simpl; lia).
  replace (base +:+ String c rest) with ((base +:+ String c "") +:+ rest)
    by (by rewrite app_assoc_s).
  by rewrite drop_app_length.
Qed.

(** A fragment without [%] is its own decoding. *)
Lemma unescape_fragment_plain (frag : string) :
  CountByte frag "%" = 0 ->
  NetURL.unescape frag NetURL.encodeFragment = Some frag.
Proof.
  induction frag as [|c frag IH]; [done|]. simpl CountByte.
  destruct (Ascii.eqb c "%") eqn:Hc; [lia|]. intros Hf.
  simpl. rewrite Hc, (IH Hf). by destruct (Ascii.eqb c "+").
Qed.

(** [url.Parse] takes what follows the first [#] as the fragment. *)
Lemma Parse_fragment (base frag : string) (u : NetURL.URL) :
  CountByte base "#" = 0 -> CountByte frag "%" = 0 -> frag <> "" ->
  NetURL.Parse (base +:+ "#" +:+ frag) = Some u ->
  NetURL.Fragment u = frag.
Proof.
  intros Hb Hf Hne. unfold NetURL.Parse.
  change (base +:+ "#" +:+ frag) with (base +:+ String "#" frag).
  rewrite (Cut_first_byte base frag "#") by done.
  destruct (NetURL.parse_nofrag base) as [url|]; simpl; [|done].
  destruct (decide (frag = "")) as [->|_]; [done|].
  rewrite unescape_fragment_plain by done. simpl. by intros [= <-].
Qed.

(** With percent-escapes the fragment is what follows the first [#],
    decoded. *)
Lemma Parse_fragment_decoded (base frag : string) (u : NetURL.URL) :
  CountByte base "#" = 0 -> frag <> "" ->
  NetURL.Parse (base +:+ "#" +:+ frag) = Some u ->
  NetURL.unescape frag NetURL.encodeFragment = Some (NetURL.Fragment u).
Proof.
  intros Hb Hne. unfold NetURL.Parse.
  change (base +:+ "#" +:+ frag) with (base +:+ String "#" frag).
  rewrite (Cut_first_byte base frag "#") by done.
  destruct (NetURL.parse_nofrag base) as [url|]; simpl; [|done].
  destruct (decide (frag = "")) as [->|_]; [done|].
  destruct (NetURL.unescape frag NetURL.encodeFragment) as [v|]; simpl; [|done].
  by intros [= <-].
Qed.

(** The URL of a resolved remote input is the input as [url.Parse]
    reads it ... *)
Lemma parse_remote_url (repoWithRef : string) (r : repoWithReader) (w w' : World) :
  HasPrefix repoWithRef "/" || HasPrefix repoWithRef "." = false ->
  parse env repoWithRef w = (Ret (Ok r), w') ->
  NetURL.Parse repoWithRef = Some (url r).
Proof.
  intros Hp. unfold parse. rewrite Hp. unfold bind.
  destruct (os_MkdirTemp env w) as [[[tmp|e]|f|] w1]; try done.
  destruct (extractURLToPath env repoWithRef tmp w1) as [[[[e|] gz]|f|] w2];
    try done.
  unfold ret, parse_url. destruct (NetURL.Parse repoWithRef) as [u|]; [|done].
  destruct (_ || _ || _); [done|]. by intros [= <- _].
Qed.

(** ... so its revision is the text after the [#]. *)
Lemma parse_remote_revision (base frag : string) (r : repoWithReader) (w w' : World) :
  HasPrefix (base +:+ "#" +:+ frag) "/" || HasPrefix (base +:+ "#" +:+ frag) "." = false ->
  CountByte base "#" = 0 -> CountByte frag "%" = 0 -> frag <> "" ->
  parse env (base +:+ "#" +:+ frag) w = (Ret (Ok r), w') ->
  NetURL.Fragment (url r) = frag.
Proof.
  intros Hp Hb Hf Hne Hr. eapply Parse_fragment; try done.
  by eapply parse_remote_url.
Qed.

End FragmentFacts.

(** ** License detection and package assembly *)

Section AssemblyFacts.
Import GoStrings.
Variable env : Env.

(** Detection over a tree that has no release action. *)
Lemma getLicense_no_closer (r : repoWithReader) (w : World) :
  close r = None ->
  getLicenseFromReader env (Some r) w = (Ret (detected env r w), walked r w).
Proof. intros Hc. unfold getLicenseFromReader, Close, bind. simpl. by rewrite Hc. Qed.

(** Detection over a fetched archive whose release goes through: the
    scratch directory goes. *)
Lemma getLicense_release (r : repoWithReader) (dir : string) (w : World) :
  close r = Some (mkCloser true dir) ->
  gzip_Close_fails env dir = false ->
  os_RemoveAll_fails env dir = None ->
  getLicenseFromReader env (Some r) w
  = (Ret (detected env r w),
     mkWorld (FS.removeAll (fs w) (resolve env dir)) (temps w)
       ((trace w ++ [EvWalkDir (readerDir r)]) ++ [EvRemoveAll dir])).
Proof.
  intros Hc Hg Hr. unfold getLicenseFromReader, Close, bind. simpl.
  by rewrite Hc; simpl; rewrite Hg, Hr.
Qed.

(** Detection over a fetched archive whose gzip reader does not
    close: the error of the deferred [Close] is dropped and the
    scratch directory is not touched. *)
Lemma getLicense_gzip_fails (r : repoWithReader) (dir : string) (w : World) :
  close r = Some (mkCloser true dir) ->
  gzip_Close_fails env dir = true ->
  getLicenseFromReader env (Some r) w = (Ret (detected env r w), walked r w).
Proof.
  intros Hc Hg. unfold getLicenseFromReader, Close, bind. simpl.
  by rewrite Hc; simpl; rewrite Hg.
Qed.

(** Detection over a fetched archive whose removal fails: the error
    is dropped as well, and a part of the scratch directory stays. *)
Lemma getLicense_remove_fails (r : repoWithReader) (dir : string) (w : World)
      (keep : list string -> bool) :
  close r = Some (mkCloser true dir) ->
  gzip_Close_fails env dir = false ->
  os_RemoveAll_fails env dir = Some keep ->
  getLicenseFromReader env (Some r) w
  = (Ret (detected env r w),
     mkWorld (FS.removePart keep (fs w) (resolve env dir)) (temps w)
       ((trace w ++ [EvWalkDir (readerDir r)]) ++ [EvRemoveAll dir])).
Proof.
  intros Hc Hg Hr. unfold getLicenseFromReader, Close, bind. simpl.
  by rewrite Hc; simpl; rewrite Hg, Hr.
Qed.

(** Detection over a repository with the nil reader: the deferred
    [Close] panics. *)
Lemma getLicense_nil_reader (r : repoWithReader) (dir : string) (w : World) :
  close r = Some (mkCloser false dir) ->
  getLicenseFromReader env (Some r) w = (Panic, walked r w).
Proof. intros Hc. unfold getLicenseFromReader, Close, bind. simpl. by rewrite Hc. Qed.

(** Detection returns, with [detected], or panics on the nil
    reader; it never ends the process by itself. *)
Lemma getLicense_cases (r : repoWithReader) (w : World) :
  (exists w', getLicenseFromReader env (Some r) w = (Ret (detected env r w), w'))
  \/ (nil_reader r /\ getLicenseFromReader env (Some r) w = (Panic, walked r w)).
Proof.
  destruct (close r) as [[[] dir]|] eqn:Hc.
  - left. destruct (gzip_Close_fails env dir) eqn:Hg.
    + eexists. by eapply getLicense_gzip_fails.
    + destruct (os_RemoveAll_fails env dir) as [keep|] eqn:Hr; eexists.
      * by eapply getLicense_remove_fails.
      * by apply getLicense_release.
  - right. split; [by exists dir | by eapply getLicense_nil_reader].
  - left. eexists. by apply getLicense_no_closer.
Qed.

(** Detection does not read the URL. *)
Lemma getLicense_trimmed (r : repoWithReader) (w : World) :
  getLicenseFromReader env (Some (trimmed r)) w
  = getLicenseFromReader env (Some r) w.
Proof. done. Qed.

Lemma detected_trimmed (r : repoWithReader) (w : World) :
  detected env (trimmed r) w = detected env r w.
Proof. done. Qed.

Lemma nil_reader_trimmed (r : repoWithReader) :
  nil_reader (trimmed r) <-> nil_reader r.
Proof. done. Qed.

(** The fields of the package [buildSbom] appends for [r] when
    detection returned [(declared, concluded)]. *)
Lemma buildPackage_fields (r : repoWithReader) (w w' : World)
      (declared concluded : string) :
  getLicenseFromReader env (Some (trimmed r)) w = (Ret (declared, concluded), w') ->
  exists pkg,
    buildPackage env r w = (Ret (pkg, trimmed r), w')
    /\ PackageName pkg = GoPath.Base (NetURL.Path (url (trimmed r)))
    /\ PackageSPDXIdentifier pkg = PackageName pkg
    /\ PackageVersion pkg = NetURL.Fragment (url r)
    /\ PackageDownloadLocation pkg = (githubUrlToDownload (url r)).1
    /\ PackageLicenseDeclared pkg
       = (if decide (declared = "") then "NONE" else declared)
    /\ PackageLicenseConcluded pkg
       = (if decide (concluded = "") then "NOASSERTION" else concluded)
    /\ PackageExternalReferences pkg
       = [mkExternalRef "PACKAGE-MANAGER" "purl"
            ("pkg:generic/git?download_url="
               +:+ NetURL.URL_String (url (trimmed r)))].
Proof.
  intros Hd. unfold buildPackage.
  destruct (githubUrlToDownload (url r)) as [downloadURL u] eqn:Hg.
  unfold trimmed in *. rewrite Hg in *.
  change ((downloadURL, u).2) with u in *. change ((downloadURL, u).1) with downloadURL.
  unfold bind. rewrite Hd. eexists. split; [reflexivity|].
  assert (NetURL.Fragment u = NetURL.Fragment (url r)) as Hu
    by (by injection Hg as _ <-).
  destruct (decide (NetURL.Fragment u = "")) as [Hf|Hf];
    destruct (decide (declared = "")); destruct (decide (concluded = ""));
    destruct (_ && _); simpl; rewrite <- ?Hu, ?Hf; repeat split; done.
Qed.

Lemma buildPackage_panic (r : repoWithReader) (w w' : World) :
  getLicenseFromReader env (Some (trimmed r)) w = (Panic, w') ->
  buildPackage env r w = (Panic, w').
Proof.
  intros Hd. unfold buildPackage.
  destruct (githubUrlToDownload (url r)) as [downloadURL u] eqn:Hg.
  unfold trimmed in *. rewrite Hg in *.
  change ((downloadURL, u).2) with u in *.
  unfold bind. by rewrite Hd.
Qed.

(** A package is assembled for every repository but the ones with
    the nil reader, on which the command panics. *)
Lemma buildPackage_cases (r : repoWithReader) (w : World) :
  (exists pkg w',
      getLicenseFromReader env (Some (trimmed r)) w = (Ret (detected env r w), w')
      /\ buildPackage env r w = (Ret (pkg, trimmed r), w'))
  \/ (nil_reader r /\ buildPackage env r w = (Panic, walked r w)).
Proof.
  destruct (getLicense_cases (trimmed r) w) as [[w' Hd]|[Hn Hd]].
  - left. rewrite detected_trimmed in Hd.
    destruct (detected env r w) as [declared concluded] eqn:Hdet.
    destruct (buildPackage_fields r w w' _ _ Hd) as (pkg & Hb & _).
    by exists pkg, w'.
  - right. split; [done|]. by apply buildPackage_panic.
Qed.

End AssemblyFacts.

(** * The claims *)

(** ** C1: files below the coverage threshold *)

(** C1, as stated, fails: in the worked environment the file
    [COPYING] scores 40% with one partial match, and the walk callback
    records the matched identifier next to [UNKNOWN] instead of
    [UNKNOWN] alone. *)
Lemma C1_counterexample :
  ~ (forall (path content : string) (licenses : list string),
        licenseRelevant Demo.env path = true ->
        PrimFloat.ltb (Percent (licensecheck_Scan Demo.env content))
          coverageThreshold = true ->
        walkFn Demo.env path (inl (File true content)) licenses
        = (None, licenses ++ [unknownLicenseType])).
Proof.
  intros H.
  specialize (H "COPYING" Demo.notes_text [] eq_refl eq_refl).
  vm_compute in H. discriminate H.
Qed.

(** C1 (amended): a license-relevant file whose scan yields a coverage
    below the 75% threshold contributes one [UNKNOWN] finding followed
    by one finding for every identifier the scan matched in it, in the
    order of the matches. *)
Theorem C1_below_threshold_findings (env : Env) (path content : string)
        (licenses : list string) :
  licenseRelevant env path = true ->
  PrimFloat.ltb (Percent (licensecheck_Scan env content)) coverageThreshold = true ->
  walkFn env path (inl (File true content)) licenses
  = (None,
     licenses ++ unknownLicenseType :: (ID <$> Matches (licensecheck_Scan env content))).
Proof.
  intros Hrel Hlow. rewrite walkFn_scanned by done. cbv zeta.
  by rewrite Hlow, <- app_assoc.
Qed.

Lemma C1_below_threshold_findings_witness :
  walkFn Demo.env "COPYING" (inl (File true Demo.notes_text)) []
  = (None, ["UNKNOWN"; "MIT"]).
Proof.
  apply (C1_below_threshold_findings Demo.env "COPYING" Demo.notes_text []);
    vm_compute; reflexivity.
Defined.

(** ** C2: the unsupported format *)

(** C2, as stated, fails: with the format [list] the command returns
    the unsupported-format error only after it created the scratch
    directory, issued the HTTP retrieval and extracted the archive. *)
Lemma C2_counterexample :
  exists w,
    RunE Demo.env "list" defaultNamespace [Demo.bar_url] Demo.world
    = (Ret (Some (ErrUnknownFormat "list")), w)
    /\ trace w
       = [EvMkdirTemp "/tmp/sbom0"; EvHttpGet Demo.bar_url;
          EvMkdir "/tmp/sbom0/bar-1.2.3";
          EvCreate "/tmp/sbom0/bar-1.2.3/LICENSE";
          EvCreate "/tmp/sbom0/bar-1.2.3/main.go"].
Proof. eexists. split; vm_compute; reflexivity. Qed.

(** C2 (amended): with a format that is neither [spdx] nor [spdx-json]
    the command first resolves every repository argument, which only
    adds resolution events (git metadata read, scratch directory made,
    archive retrieved and extracted) to the trace; when every argument
    resolves it then returns the unsupported-format error in the world
    resolution left, with no license detection and no output, and when
    one fails the run ends as that resolution ended. *)
Theorem C2_unknown_format_after_resolution (env : Env)
        (outputFormat namespace : string) (args : list string) (w : World) :
  outputFormat <> "spdx" -> outputFormat <> "spdx-json" ->
  exists o w',
    parseAll env args w = (o, w')
    /\ extends_with resolution_event w w'
    /\ RunE env outputFormat namespace args w
       = (match o with
          | Ret _ => Ret (Some (ErrUnknownFormat outputFormat))
          | Fatal f => Fatal f
          | Panic => Panic
          end, w').
Proof.
  intros H1 H2. destruct (parseAll env args w) as [o w'] eqn:Hp.
  exists o, w'. split; [done|]. split; [by eapply parseAll_events|].
  rewrite RunE_unknown_format, Hp by done. by destruct o.
Qed.

Lemma C2_unknown_format_after_resolution_witness :
  exists o w',
    parseAll Demo.env [Demo.bar_url] Demo.world = (o, w')
    /\ extends_with resolution_event Demo.world w'
    /\ RunE Demo.env "list" defaultNamespace [Demo.bar_url] Demo.world
       = (match o with
          | Ret _ => Ret (Some (ErrUnknownFormat "list"))
          | Fatal f => Fatal f
          | Panic => Panic
          end, w').
Proof.
  apply (C2_unknown_format_after_resolution Demo.env "list" defaultNamespace
           [Demo.bar_url] Demo.world); discriminate.
Defined.

(** ** C3: running detection twice *)

(** C3, as stated, fails for an extracted remote archive: the first
    run finds [MIT] and removes the scratch directory, the second run
    over the same tree finds nothing. *)
Lemma C3_counterexample :
  let w0 := (parse Demo.env Demo.bar_url Demo.world).2 in
  let run1 := getLicenseFromReader Demo.env (Some Demo.remote_repo) w0 in
  let run2 := getLicenseFromReader Demo.env (Some Demo.remote_repo) run1.2 in
  (parse Demo.env Demo.bar_url Demo.world).1 = Ret (Ok Demo.remote_repo)
  /\ run1.1 = Ret ("MIT", "MIT")
  /\ run2.1 = Ret ("", "").
Proof. vm_compute. repeat split; reflexivity. Qed.

(** C3 (amended): over a tree that has no release action, which is
    what [parse] builds for a local working copy, license detection is
    idempotent: it returns both times, with the same declared and
    concluded strings. *)
Theorem C3_idempotent_without_release (env : Env) (r : repoWithReader) (w : World) :
  close r = None ->
  exists declared concluded w1 w2,
    getLicenseFromReader env (Some r) w = (Ret (declared, concluded), w1)
    /\ getLicenseFromReader env (Some r) w1 = (Ret (declared, concluded), w2).
Proof.
  intros Hc. destruct (detected env r w) as [declared concluded] eqn:Hd.
  exists declared, concluded, (walked r w), (walked r (walked r w)).
  rewrite !getLicense_no_closer by done. by rewrite <- Hd.
Qed.

Lemma C3_idempotent_without_release_witness :
  exists declared concluded w1 w2,
    getLicenseFromReader Demo.env (Some Demo.local_repo) Demo.world
    = (Ret (declared, concluded), w1)
    /\ getLicenseFromReader Demo.env (Some Demo.local_repo) w1
       = (Ret (declared, concluded), w2).
Proof.
  apply (C3_idempotent_without_release Demo.env Demo.local_repo Demo.world).
  reflexivity.
Defined.

(** ** C4: SSH-style origins *)

(** C4, as stated, fails for a host other than github.com: the origin
    [git@gitlab.com:foo/bar.git] is left as it is, the URL derived
    from it starts with [git@gitlab.com:], and resolution ends in the
    error of [url.Parse]. *)
Lemma C4_counterexample :
  localRepoURL "git@gitlab.com:foo/bar.git" "0a1b2c3"
  = "git@gitlab.com:foo/bar.git#0a1b2c3"
  /\ GoStrings.HasPrefix (localRepoURL "git@gitlab.com:foo/bar.git" "0a1b2c3")
       "git@gitlab.com:" = true
  /\ (parse Demo.env "./lab" Demo.world).1 = Ret (Err (ErrURLParse "./lab")).
Proof. vm_compute. repeat split; reflexivity. Qed.

(** C4 (amended): for a local-path input whose remote [origin] has a
    first URL that starts with [git@github.com:], the URL [parse]
    derives and hands to [url.Parse] is that URL with the prefix
    replaced by [https://github.com/], followed by [#] and the hash of
    [HEAD]. *)
Theorem C4_github_origin_rewritten (env : Env) (repoWithRef rest hash : string)
        (urls : list string) (w : World) :
  GoStrings.HasPrefix repoWithRef "/" || GoStrings.HasPrefix repoWithRef "." = true ->
  git_PlainOpen env repoWithRef
  = Some (mkGitRepo (Some (("git@github.com:" +:+ rest) :: urls)) (Some hash)) ->
  parse env repoWithRef w
  = (Ret (parse_url repoWithRef ("https://github.com/" +:+ rest +:+ "#" +:+ hash)
            repoWithRef None),
     mkWorld (fs w) (temps w) (trace w ++ [EvGitOpen repoWithRef])).
Proof.
  intros Hp Hg. rewrite (parse_local env _ _ _ _ _ Hp Hg).
  by rewrite localRepoURL_github.
Qed.

Lemma C4_github_origin_rewritten_witness :
  parse Demo.env "./repo" Demo.world
  = (Ret (parse_url "./repo" "https://github.com/foo/bar.git#0a1b2c3" "./repo" None),
     mkWorld Demo.root 0 [EvGitOpen "./repo"]).
Proof.
  apply (C4_github_origin_rewritten Demo.env "./repo" "foo/bar.git" "0a1b2c3" []
           Demo.world); reflexivity.
Defined.

(** ** C5: declared and concluded licenses *)

(** C5, as stated, fails on the empty sequence of findings: every
    entry of it is [UNKNOWN], so the claim concludes [UNKNOWN], and the
    code returns the empty string. *)
Lemma C5_counterexample :
  reduceLicenses (None, []) = ("", "")
  /\ (reduceLicenses (None, [])).2 <> spec_concluded [].
Proof. split; [reflexivity | vm_compute; discriminate]. Qed.

(** C5 (amended): for every non-empty sequence of findings made of
    non-empty identifiers, the declared expression is the findings
    deduplicated in first-seen order and joined with [" AND "], and the
    concluded license is the first deduplicated entry that is not
    [UNKNOWN], or [UNKNOWN] when there is none. *)
Theorem C5_declared_and_concluded (findings : list string) :
  findings <> [] -> "" ∉ findings ->
  reduceLicenses (None, findings) = (spec_declared findings, spec_concluded findings).
Proof.
  intros Hne Hempty. rewrite reduceLicenses_nonempty by done.
  unfold spec_declared, spec_concluded. f_equal. cbv zeta.
  rewrite firstKnown_head.
  destruct (filter _ (dedup_first_seen findings)) as [|l ls] eqn:Hf; [done|].
  simpl. destruct (decide (l = "")) as [->|]; [|done].
  destruct Hempty. apply dedup_first_seen_subset.
  eapply (proj1 (list_elem_of_filter _ _ _)). rewrite Hf. by left.
Qed.

Lemma C5_declared_and_concluded_witness :
  reduceLicenses (None, ["MIT"; "Apache-2.0"; "MIT"]) = ("MIT AND Apache-2.0", "MIT").
Proof.
  apply (C5_declared_and_concluded ["MIT"; "Apache-2.0"; "MIT"]).
  - discriminate.
  - vm_compute. intros H. by repeat (inversion H as [|? ? ? H']; clear H; rename H' into H).
Defined.

(** ** C6: the version is the revision fragment *)

(** The version of an assembled package is the fragment of the URL the
    repository holds; the only repositories for which no package is
    assembled are the ones with the nil reader, on which the command
    panics. *)
Lemma buildPackage_version (env : Env) (r : repoWithReader) (w : World) :
  (exists pkg r' w',
      buildPackage env r w = (Ret (pkg, r'), w')
      /\ PackageVersion pkg = NetURL.Fragment (url r))
  \/ (nil_reader r /\ buildPackage env r w = (Panic, walked r w)).
Proof.
  destruct (buildPackage_cases env r w) as [(pkg & w' & Hd & Hb)|?];
    [left | by right].
  destruct (detected env r w) as [declared concluded].
  destruct (buildPackage_fields env r w w' _ _ Hd) as (pkg' & Hb' & _ & _ & Hv & _).
  rewrite Hb in Hb'. injection Hb' as <-. by exists pkg, (trimmed r), w'.
Qed.

(** C6, as stated, fails for a revision with a percent-escape: the
    input [https://github.com/foo/bar#v%41] resolves, and the package
    assembled for it has the version [vA], which is the fragment as
    [url.Parse] decodes it and not the fragment of the input. *)
Lemma C6_counterexample :
  Demo.escaped_url = "https://github.com/foo/bar" +:+ "#" +:+ "v%41"
  /\ exists r w1 pkg r' w',
      parse Demo.env Demo.escaped_url Demo.world = (Ret (Ok r), w1)
      /\ buildPackage Demo.env r w1 = (Ret (pkg, r'), w')
      /\ PackageVersion pkg = "vA"
      /\ PackageVersion pkg <> "v%41".
Proof.
  split; [reflexivity|]. do 5 eexists.
  split; [vm_compute; reflexivity|].
  split; [vm_compute; reflexivity|].
  split; [reflexivity | discriminate].
Qed.

(** C6 (amended): for a remote input that [parse] resolves and that
    carries a revision after its first [#], the version of the
    assembled package is that revision as [url.Parse] decodes it,
    percent-escapes replaced by the bytes they stand for; it is the
    revision exactly when the revision has no [%]. The only resolved
    inputs for which no package is assembled are the ones with the nil
    reader, on which the command panics. *)
Theorem C6_version_is_decoded_fragment (env : Env) (base frag : string)
        (r : repoWithReader) (w w1 : World) :
  local_form (base +:+ "#" +:+ frag) = false ->
  GoStrings.CountByte base "#" = 0 -> frag <> "" ->
  parse env (base +:+ "#" +:+ frag) w = (Ret (Ok r), w1) ->
  exists version,
    NetURL.unescape frag NetURL.encodeFragment = Some version
    /\ (GoStrings.CountByte frag "%" = 0 -> version = frag)
    /\ ((exists pkg r' w',
            buildPackage env r w1 = (Ret (pkg, r'), w')
            /\ PackageVersion pkg = version)
        \/ (nil_reader r /\ buildPackage env r w1 = (Panic, walked r w1))).
Proof.
  intros Hl Hb Hne Hp. exists (NetURL.Fragment (url r)).
  pose proof (parse_remote_url env _ _ _ _ Hl Hp) as Hu.
  pose proof (Parse_fragment_decoded _ _ _ Hb Hne Hu) as Hv.
  split; [done|]. split; [|apply buildPackage_version].
  intros Hf. rewrite (unescape_fragment_plain _ Hf) in Hv. by injection Hv.
Qed.

Lemma C6_version_is_decoded_fragment_witness :
  exists version,
    NetURL.unescape "v1.2.3" NetURL.encodeFragment = Some version
    /\ (GoStrings.CountByte "v1.2.3" "%" = 0 -> version = "v1.2.3")
    /\ ((exists pkg r' w',
            buildPackage Demo.env Demo.remote_repo
              (parse Demo.env Demo.bar_url Demo.world).2 = (Ret (pkg, r'), w')
            /\ PackageVersion pkg = version)
        \/ (nil_reader Demo.remote_repo
            /\ buildPackage Demo.env Demo.remote_repo
                 (parse Demo.env Demo.bar_url Demo.world).2
               = (Panic,
                  walked Demo.remote_repo (parse Demo.env Demo.bar_url Demo.world).2))).
Proof.
  apply (C6_version_is_decoded_fragment Demo.env "https://github.com/foo/bar" "v1.2.3"
           Demo.remote_repo Demo.world (parse Demo.env Demo.bar_url Demo.world).2).
  - reflexivity.
  - reflexivity.
  - discriminate.
  - vm_compute. reflexivity.
Defined.

(** ** C7: the download location *)

(** C7: the download location of an assembled package is
    [scheme://host] followed by the path, without its suffix [.git]
    when it has one, then [/archive/], the revision and [.tar.gz]; the
    input [https://github.com/foo/bar.git#abc123] resolves to
    [https://github.com/foo/bar/archive/abc123.tar.gz]. *)
Theorem C7_download_location :
  (forall (env : Env) (r : repoWithReader) (w : World),
      let u := url r in
      let location (path : string) :=
        NetURL.Scheme u +:+ "://" +:+ NetURL.Host u +:+ path
          +:+ "/archive/" +:+ NetURL.Fragment u +:+ ".tar.gz" in
      (exists pkg r' w',
          buildPackage env r w = (Ret (pkg, r'), w')
          /\ (forall p, NetURL.Path u = p +:+ ".git" ->
                        PackageDownloadLocation pkg = location p)
          /\ ((forall p, NetURL.Path u <> p +:+ ".git") ->
              PackageDownloadLocation pkg = location (NetURL.Path u)))
      \/ (nil_reader r /\ buildPackage env r w = (Panic, walked r w)))
  /\ (fun u => (githubUrlToDownload u).1)
       <$> NetURL.Parse "https://github.com/foo/bar.git#abc123"
     = Some "https://github.com/foo/bar/archive/abc123.tar.gz".
Proof.
  split; [|vm_compute; reflexivity].
  intros env r w u location.
  destruct (buildPackage_cases env r w) as [(pkg & w' & Hd & Hb)|?];
    [left | by right].
  destruct (detected env r w) as [declared concluded].
  destruct (buildPackage_fields env r w w' _ _ Hd)
    as (pkg' & Hb' & _ & _ & _ & Hl & _).
  rewrite Hb in Hb'. injection Hb' as <-. exists pkg, (trimmed r), w'.
  split; [done|]. rewrite Hl. unfold githubUrlToDownload. simpl. fold u.
  split.
  - intros p ->. by rewrite TrimSuffix_app.
  - intros Hno. by rewrite TrimSuffix_none.
Qed.

Lemma C7_download_location_witness :
  (exists pkg r' w',
      buildPackage Demo.env Demo.local_repo Demo.world = (Ret (pkg, r'), w')
      /\ PackageDownloadLocation pkg
         = "https://github.com/foo/bar/archive/0a1b2c3.tar.gz")
  \/ (nil_reader Demo.local_repo
      /\ buildPackage Demo.env Demo.local_repo Demo.world
         = (Panic, walked Demo.local_repo Demo.world)).
Proof.
  destruct (proj1 C7_download_location Demo.env Demo.local_repo Demo.world)
    as [(pkg & r' & w' & Hb & Hgit & _)|Hnil]; [left | right; exact Hnil].
  exists pkg, r', w'. split; [exact Hb|]. exact (Hgit "/foo/bar" eq_refl).
Defined.

(** ** C8: the license defaults *)

(** C8: when license detection returns, the assembled package keeps
    the default [NONE] for an empty declared string and the default
    [NOASSERTION] for an empty concluded string, and carries the
    detector's strings otherwise; detection returns two empty strings
    when the walk ended in an error or recorded no finding. *)
Theorem C8_license_defaults (env : Env) (r : repoWithReader) (w w' : World)
        (declared concluded : string) :
  getLicenseFromReader env (Some r) w = (Ret (declared, concluded), w') ->
  exists pkg,
    buildPackage env r w = (Ret (pkg, trimmed r), w')
    /\ PackageLicenseDeclared pkg
       = (if decide (declared = "") then "NONE" else declared)
    /\ PackageLicenseConcluded pkg
       = (if decide (concluded = "") then "NOASSERTION" else concluded)
    /\ (let walk := WalkDir env (walkFn env) (fs w) (readerDir r) [] in
        is_Some walk.1 \/ walk.2 = [] ->
        (declared, concluded) = ("", "")
        /\ PackageLicenseDeclared pkg = "NONE"
        /\ PackageLicenseConcluded pkg = "NOASSERTION").
Proof.
  intros Hd. rewrite <- getLicense_trimmed in Hd.
  destruct (buildPackage_fields env r w w' _ _ Hd)
    as (pkg & Hb & _ & _ & _ & _ & Hdecl & Hconc & _).
  exists pkg. repeat split; try done;
    destruct (getLicense_cases env (trimmed r) w) as [[w1 H1]|[_ H1]];
    rewrite H1 in Hd; try done; injection Hd as Hdet _;
    rewrite detected_trimmed in Hdet; unfold detected in Hdet;
    destruct (WalkDir _ _ _ _ _) as [[e|] ls]; simpl in *;
    destruct H as [[? ?]| ->]; simplify_eq; done.
Qed.

Lemma C8_license_defaults_witness :
  exists pkg,
    buildPackage Demo.env Demo.local_repo Demo.world
    = (Ret (pkg, trimmed Demo.local_repo), walked Demo.local_repo Demo.world)
    /\ PackageLicenseDeclared pkg = "MIT"
    /\ PackageLicenseConcluded pkg = "MIT"
    /\ (let walk := WalkDir Demo.env (walkFn Demo.env) (fs Demo.world)
                      (readerDir Demo.local_repo) [] in
        is_Some walk.1 \/ walk.2 = [] ->
        ("MIT", "MIT") = ("", "")
        /\ PackageLicenseDeclared pkg = "NONE"
        /\ PackageLicenseConcluded pkg = "NOASSERTION").
Proof.
  apply (C8_license_defaults Demo.env Demo.local_repo Demo.world
           (walked Demo.local_repo Demo.world) "MIT" "MIT").
  vm_compute. reflexivity.
Defined.

(** ** C9: vendored files *)

(** C9: an entry whose path has a directory named [vendor] anywhere
    above it adds no finding, whatever its name and its content, and
    stops the walk with no error. *)
Theorem C9_vendored_file_no_finding (env : Env) (ds : list string) (name : string)
        (d : node) (licenses : list string) :
  Forall plain ds -> plain name -> "vendor" ∈ ds ->
  walkFn env (GoStrings.Join (ds ++ [name]) "/") (inl d) licenses = (None, licenses).
Proof.
  intros Hall Hname Hv. apply walkFn_vendored; try done. by apply plain_slashless.
Qed.

Lemma C9_vendored_file_no_finding_witness :
  walkFn Demo.env "vendor/pkg/LICENSE" (inl (File true Demo.apache_text)) ["MIT"]
  = (None, ["MIT"]).
Proof.
  apply (C9_vendored_file_no_finding Demo.env ["vendor"; "pkg"] "LICENSE"
           (File true Demo.apache_text) ["MIT"]).
  - repeat constructor; vm_compute; congruence.
  - repeat split; vm_compute; congruence.
  - vm_compute. by left.
Defined.

(** ** C10: the locator is mutated before the name is taken *)




(** * Further properties of the command *)

(** ** The reduction of the findings, continued *)

Section ReduceMore.
Import GoStrings.

Lemma dedup_first_seen_sublist (findings : list string) :
  dedup_first_seen findings `sublist_of` findings.
Proof.
  induction findings as [|l rest IH]; simpl; [constructor|].
  apply sublist_skip. etrans; [apply sublist_filter | done].
Qed.

Lemma dedup_first_seen_all (l : string) (findings : list string) :
  findings <> [] -> Forall (fun l' => l' = l) findings ->
  dedup_first_seen findings = [l].
Proof.
  induction findings as [|x rest IH]; [done|]. intros _ Hall.
  apply Forall_cons in Hall as [-> Hall]. simpl.
  destruct rest as [|y rest]; [done|]. rewrite IH by done.
  by rewrite filter_cons_False by (intros ?; done).
Qed.

End ReduceMore.

(** X1: the deduplicated list [getLicenseFromReader] joins has no
    entry twice, has exactly the entries of the findings, and keeps
    them in the order of the findings. *)
Theorem unique_is_ordered_deduplication (licenses : list string) :
  NoDup (unique licenses)
  /\ (forall l, l ∈ unique licenses <-> l ∈ licenses)
  /\ unique licenses `sublist_of` licenses.
Proof.
  rewrite unique_dedup. split; [apply dedup_first_seen_NoDup|]. split.
  - intros l. split; [apply dedup_first_seen_subset | apply dedup_first_seen_elem].
  - apply dedup_first_seen_sublist.
Qed.

(** X2: when the walk recorded findings, the concluded license is
    never empty: it is [UNKNOWN] or one of the findings. *)
Theorem concluded_is_unknown_or_a_finding (findings : list string) :
  findings <> [] ->
  let concluded := (reduceLicenses (None, findings)).2 in
  concluded <> ""
  /\ (concluded = unknownLicenseType \/ concluded ∈ findings).
Proof.
  intros Hne. rewrite reduceLicenses_nonempty by done. cbv zeta. simpl snd.
  destruct (decide (firstKnown (dedup_first_seen findings) = "")) as [|Hk];
    [split; [done | by left]|].
  split; [done|]. right. apply dedup_first_seen_subset.
  rewrite firstKnown_head in *.
  destruct (filter _ (dedup_first_seen findings)) as [|l ls] eqn:Hf; [done|].
  simpl. eapply (proj1 (list_elem_of_filter _ _ _)). rewrite Hf. by left.
Qed.

Lemma concluded_is_unknown_or_a_finding_witness :
  let concluded := (reduceLicenses (None, ["UNKNOWN"; "Apache-2.0"])).2 in
  concluded <> "" /\ (concluded = unknownLicenseType \/ concluded ∈ ["UNKNOWN"; "Apache-2.0"]).
Proof.
  apply (concluded_is_unknown_or_a_finding ["UNKNOWN"; "Apache-2.0"]). discriminate.
Defined.

(** X3: when every finding of a non-empty walk is [UNKNOWN], the
    declared and the concluded license are both [UNKNOWN]. *)
Theorem all_unknown_findings (findings : list string) :
  findings <> [] ->
  Forall (fun l => l = unknownLicenseType) findings ->
  reduceLicenses (None, findings) = (unknownLicenseType, unknownLicenseType).
Proof.
  intros Hne Hall. rewrite reduceLicenses_nonempty by done.
  by rewrite (dedup_first_seen_all unknownLicenseType).
Qed.

Lemma all_unknown_findings_witness :
  reduceLicenses (None, ["UNKNOWN"; "UNKNOWN"]) = ("UNKNOWN", "UNKNOWN").
Proof.
  apply (all_unknown_findings ["UNKNOWN"; "UNKNOWN"]).
  - discriminate.
  - repeat constructor.
Defined.

(** ** Extraction *)

(** X4: entries of the archive that are neither directories nor
    regular files leave no mark: extraction runs as if they were not
    in the stream. *)
Theorem extract_skips_other_entries (env : Env) (path : string)
        (entries : list TarEntry) (w : World) :
  extract_entries env path entries w
  = extract_entries env path (filter (fun e => tar_skipped e = false) entries) w.
Proof.
  revert w. induction entries as [|[name|name content|name] rest IH]; intros w;
    [done| | |].
  - rewrite filter_cons_True by done. simpl. unfold bind, get_fs.
    destruct (FS.mkdir _ _); [|done]. simpl. apply IH.
  - rewrite filter_cons_True by done. simpl. unfold bind, get_fs.
    destruct (FS.create _ _ _); [|done]. simpl. apply IH.
  - rewrite filter_cons_False by done. simpl. apply IH.
Qed.

(** ** Locator resolution, continued *)

Section ResolutionMore.
Import GoStrings.
Variable env : Env.

Lemma parse_url_Ok (repoWithRef repo dir : string) (c : option closer)
      (r : repoWithReader) :
  parse_url repoWithRef repo dir c = Ok r ->
  NetURL.Parse repo = Some (url r)
  /\ NetURL.Scheme (url r) <> "" /\ NetURL.Host (url r) <> ""
  /\ NetURL.Path (url r) <> ""
  /\ readerDir r = dir /\ close r = c.
Proof.
  unfold parse_url. destruct (NetURL.Parse repo) as [u|]; [|done].
  destruct (bool_decide (NetURL.Scheme u = "")) eqn:H1; [done|].
  destruct (bool_decide (NetURL.Host u = "")) eqn:H2; [done|].
  destruct (bool_decide (NetURL.Path u = "")) eqn:H3; [done|].
  simpl. intros [= <-]. simpl.
  apply bool_decide_eq_false in H1, H2, H3. done.
Qed.

Lemma parse_local_cases (repoWithRef : string) (w : World) :
  local_form repoWithRef = true ->
  exists res,
    parse env repoWithRef w
    = (Ret res, mkWorld (fs w) (temps w) (trace w ++ [EvGitOpen repoWithRef]))
    /\ (res = Err (ErrOpenRepo repoWithRef)
        \/ res = Err (ErrRemoteOrigin repoWithRef)
        \/ res = Err (ErrNoRemoteOrigin repoWithRef)
        \/ res = Err (ErrHead repoWithRef)
        \/ exists origin hash,
            res = parse_url repoWithRef (localRepoURL origin hash) repoWithRef None).
Proof.
  unfold local_form, parse. intros ->. unfold bind, emit.
  destruct (git_PlainOpen env repoWithRef) as [[[[|origin urls]|] [hash|]]|];
    simpl; eexists; (split; [reflexivity|]); eauto 10.
Qed.

Lemma os_MkdirTemp_Ok (dir : string) (w w' : World) :
  os_MkdirTemp env w = (Ret (Ok dir), w') -> resolve env dir <> [].
Proof.
  unfold os_MkdirTemp, bind, next_temp, get_fs. simpl.
  destruct (FS.mkdir _ _) as [root'|] eqn:Hm; simpl; [|done].
  intros [= <- _] Hnil. unfold FS.mkdir in Hm. by rewrite Hnil in Hm.
Qed.

Lemma extractURLToPath_soft (u path : string) (status : nat) (body : Body)
      (w : World) :
  http_Get env u = Response status body -> status <> 200 ->
  extractURLToPath env u path w
  = (Ret (None, false), mkWorld (fs w) (temps w) (trace w ++ [EvHttpGet u])).
Proof.
  intros Hg Hs. unfold extractURLToPath, bind, emit. rewrite Hg.
  by apply Nat.eqb_neq in Hs as ->.
Qed.

Lemma extractURLToPath_reader (u path : string) (body : Body) (w w' : World)
      (gz : bool) :
  http_Get env u = Response 200 body ->
  extractURLToPath env u path w = (Ret (None, gz), w') -> gz = true.
Proof.
  intros Hg. unfold extractURLToPath, bind, emit. rewrite Hg. simpl.
  destruct body as [|entries clean_end]; [done|].
  destruct (extract_entries _ _ _ _) as [[[]|f|] w1]; try done.
  unfold ret. by intros [= _ <- _].
Qed.

Lemma parse_remote_cases (repoWithRef : string) (r : repoWithReader) (w w' : World) :
  local_form repoWithRef = false ->
  parse env repoWithRef w = (Ret (Ok r), w') ->
  exists gz w1 w2,
    os_MkdirTemp env w = (Ret (Ok (readerDir r)), w1)
    /\ extractURLToPath env repoWithRef (readerDir r) w1 = (Ret (None, gz), w2)
    /\ w' = w2
    /\ parse_url repoWithRef repoWithRef (readerDir r)
         (Some (mkCloser gz (readerDir r))) = Ok r.
Proof.
  unfold local_form, parse. intros ->. unfold bind.
  destruct (os_MkdirTemp env w) as [[[tmp|e]|f|] w1] eqn:Hm; try done.
  destruct (extractURLToPath env repoWithRef tmp w1) as [[[[e|] gz]|f|] w2] eqn:He;
    try done.
  unfold ret. intros [= Hu <-].
  destruct (parse_url_Ok _ _ _ _ _ Hu) as (_ & _ & _ & _ & <- & _).
  by exists gz, w1, w2.
Qed.

Lemma parseAll_app (args1 args2 : list string) (w : World) :
  parseAll env (args1 ++ args2) w
  = match parseAll env args1 w with
    | (Ret repos1, w1) =>
        match parseAll env args2 w1 with
        | (Ret repos2, w2) => (Ret (repos1 ++ repos2), w2)
        | (Fatal f, w2) => (Fatal f, w2)
        | (Panic, w2) => (Panic, w2)
        end
    | (Fatal f, w1) => (Fatal f, w1)
    | (Panic, w1) => (Panic, w1)
    end.
Proof.
  revert w. induction args1 as [|repo rest IH]; intros w; simpl.
  - by destruct (parseAll env args2 w) as [[?|?|] ?].
  - unfold bind. destruct (parse env repo w) as [[[r|e]|f|] w0]; try done.
    rewrite IH. destruct (parseAll env rest w0) as [[repos1|f|] w1]; try done.
    unfold ret. simpl. by destruct (parseAll env args2 w1) as [[repos2|f|] w2].
Qed.


End ResolutionMore.

(** X5: resolving a path to a working copy always returns, reads the
    git metadata and nothing else: the file system is as before, no
    scratch directory is made, nothing is retrieved; and a repository
    it resolves is read in place, with no release action. *)
Theorem parse_local_only_reads (env : Env) (repoWithRef : string) (w : World) :
  local_form repoWithRef = true ->
  exists res,
    parse env repoWithRef w
    = (Ret res, mkWorld (fs w) (temps w) (trace w ++ [EvGitOpen repoWithRef]))
    /\ forall r, res = Ok r -> readerDir r = repoWithRef /\ close r = None.
Proof.
  intros Hl. destruct (parse_local_cases env repoWithRef w Hl) as (res & Hp & Hres).
  exists res. split; [done|]. intros r ->.
  destruct Hres as [?|[?|[?|[?|(origin & hash & Hu)]]]]; try done.
  symmetry in Hu. by destruct (parse_url_Ok _ _ _ _ _ Hu) as (_ & _ & _ & _ & ? & ?).
Qed.

Lemma parse_local_only_reads_witness :
  exists res,
    parse Demo.env "./repo" Demo.world
    = (Ret res, mkWorld (fs Demo.world) (temps Demo.world)
                  (trace Demo.world ++ [EvGitOpen "./repo"]))
    /\ forall r, res = Ok r -> readerDir r = "./repo" /\ close r = None.
Proof. apply (parse_local_only_reads Demo.env "./repo" Demo.world). reflexivity. Defined.

(** X6: a repository [parse] returns has a URL with a scheme, a host
    and a path, none of them empty; for a remote input its tree is the
    scratch directory its release action removes. *)
Theorem parse_resolves_complete_locators (env : Env) (repoWithRef : string)
        (r : repoWithReader) (w w' : World) :
  parse env repoWithRef w = (Ret (Ok r), w') ->
  NetURL.Scheme (url r) <> "" /\ NetURL.Host (url r) <> ""
  /\ NetURL.Path (url r) <> ""
  /\ (local_form repoWithRef = false ->
      exists gz, close r = Some (mkCloser gz (readerDir r))
                 /\ resolve env (readerDir r) <> []).
Proof.
  intros Hp. destruct (local_form repoWithRef) eqn:Hl.
  - destruct (parse_local_cases env repoWithRef w Hl) as (res & Hp' & Hres).
    rewrite Hp in Hp'. injection Hp' as <- _.
    destruct Hres as [?|[?|[?|[?|(origin & hash & Hu)]]]]; try done.
    symmetry in Hu.
    destruct (parse_url_Ok _ _ _ _ _ Hu) as (_ & ? & ? & ? & _). done.
  - destruct (parse_remote_cases env _ _ _ _ Hl Hp) as (gz & w1 & w2 & Hm & _ & _ & Hu).
    destruct (parse_url_Ok _ _ _ _ _ Hu) as (_ & ? & ? & ? & _ & Hc).
    repeat split; try done. intros _. exists gz. split; [done|].
    by eapply os_MkdirTemp_Ok.
Qed.

Lemma parse_resolves_complete_locators_witness :
  NetURL.Scheme (url Demo.remote_repo) <> "" /\ NetURL.Host (url Demo.remote_repo) <> ""
  /\ NetURL.Path (url Demo.remote_repo) <> ""
  /\ (local_form Demo.bar_url = false ->
      exists gz, close Demo.remote_repo = Some (mkCloser gz (readerDir Demo.remote_repo))
                 /\ resolve Demo.env (readerDir Demo.remote_repo) <> []).
Proof.
  apply (parse_resolves_complete_locators Demo.env Demo.bar_url Demo.remote_repo
           Demo.world (parse Demo.env Demo.bar_url Demo.world).2).
  vm_compute. reflexivity.
Defined.

(** X7: the command stops at the first argument that does not
    resolve: the arguments before it were resolved, the arguments
    after it are not looked at, and the process exits in [log.Fatalf]
    in the world that failed resolution left. *)
Theorem parseAll_stops_at_first_failure (env : Env) (done_args rest : list string)
        (bad : string) (repos : list repoWithReader) (e : error) (w w1 w2 : World) :
  parseAll env done_args w = (Ret repos, w1) ->
  parse env bad w1 = (Ret (Err e), w2) ->
  forall outputFormat namespace,
    RunE env outputFormat namespace (done_args ++ bad :: rest) w
    = (Fatal (FatalGenerating bad e), w2).
Proof.
  intros Hd Hb outputFormat namespace. unfold RunE, bind at 1.
  rewrite parseAll_app, Hd. simpl. unfold bind at 1. by rewrite Hb.
Qed.

Lemma parseAll_stops_at_first_failure_witness :
  RunE Demo.env "spdx" defaultNamespace (["./repo"] ++ "./lab" :: [Demo.bar_url])
    Demo.world
  = (Fatal (FatalGenerating "./lab" (ErrURLParse "./lab")),
     mkWorld Demo.root 0 [EvGitOpen "./repo"; EvGitOpen "./lab"]).
Proof.
  apply (parseAll_stops_at_first_failure Demo.env ["./repo"] [Demo.bar_url] "./lab"
           [Demo.local_repo] (ErrURLParse "./lab") Demo.world
           (mkWorld Demo.root 0 [EvGitOpen "./repo"])); vm_compute; reflexivity.
Defined.

(** ** Assembly, continued *)

Section AssemblyMore.
Import GoStrings.
Variable env : Env.

Lemma buildPackage_describes (r : repoWithReader) (w : World) :
  ~ nil_reader r ->
  exists pkg w',
    buildPackage env r w = (Ret (pkg, trimmed r), w') /\ describes r pkg.
Proof.
  intros Hn. destruct (getLicense_cases env (trimmed r) w) as [[w' Hd]|[? _]];
    [|done].
  destruct (detected env (trimmed r) w) as [declared concluded].
  destruct (buildPackage_fields env r w w' _ _ Hd)
    as (pkg & Hb & ? & ? & ? & ? & _).
  by exists pkg, w'.
Qed.

Lemma buildPackage_nil_reader (r : repoWithReader) (w : World) :
  nil_reader r -> buildPackage env r w = (Panic, walked r w).
Proof.
  intros [dir Hc]. apply buildPackage_panic.
  by apply (getLicense_nil_reader env (trimmed r) dir).
Qed.

Lemma buildPackages_describes (repos : list repoWithReader) (w : World) :
  Forall (fun r => ~ nil_reader r) repos ->
  exists packages w',
    buildPackages env repos w = (Ret packages, w')
    /\ Forall2 describes repos packages.
Proof.
  revert w. induction repos as [|r rest IH]; intros w Hall.
  - exists [], w. by split; [|constructor].
  - apply Forall_cons in Hall as [Hr Hrest].
    destruct (buildPackage_describes r w Hr) as (pkg & w1 & Hb & Hd).
    destruct (IH w1 Hrest) as (packages & w2 & Hbs & Hds).
    exists (pkg :: packages), w2. simpl. unfold bind at 1. rewrite Hb.
    unfold bind at 1. rewrite Hbs. split; [done | by constructor].
Qed.

Lemma buildPackages_nil_reader (repos : list repoWithReader) (w : World) :
  Exists nil_reader repos ->
  exists w', buildPackages env repos w = (Panic, w').
Proof.
  revert w. induction repos as [|r rest IH]; intros w Hex; [by inversion Hex|].
  simpl. unfold bind at 1.
  destruct (buildPackage_cases env r w) as [(pkg & w1 & _ & Hb)|[_ Hb]];
    rewrite Hb; [|by eexists].
  apply Exists_cons in Hex as [Hr|Hrest].
  { by rewrite (buildPackage_nil_reader r w Hr) in Hb. }
  destruct (IH w1 Hrest) as [w2 Hp]. exists w2. unfold bind. by rewrite Hp.
Qed.






End AssemblyMore.

(** X8: when no repository holds the nil reader, [buildSbom] returns
    an SPDX-2.3 document whose namespace is the given one, a dash and
    the fresh UUID, whose creator is the given tool, and whose packages
    stand one for each repository, in the order of the repositories,
    each with the name, identifier, version and download location of
    its repository. *)
Theorem buildSbom_one_package_per_repository (env : Env)
        (repos : list repoWithReader) (namespace creator : string) (w : World) :
  Forall (fun r => ~ nil_reader r) repos ->
  exists doc w',
    buildSbom env repos namespace creator w = (Ret doc, w')
    /\ SPDXVersion doc = "SPDX-2.3" /\ DataLicense doc = "CC0-1.0"
    /\ SPDXIdentifier doc = "DOCUMENT" /\ DocumentName doc = "github-repo"
    /\ DocumentNamespace doc = namespace +:+ "-" +:+ uuid_New env
    /\ Creators doc = [mkCreator creator "Tool"]
    /\ Forall2 describes repos (Packages doc).
Proof.
  intros Hall.
  destruct (buildPackages_describes env repos w Hall) as (packages & w' & Hb & Hd).
  eexists _, w'. unfold buildSbom, bind. rewrite Hb. by repeat split.
Qed.

Lemma buildSbom_one_package_per_repository_witness :
  exists doc w',
    buildSbom Demo.env [Demo.local_repo] defaultNamespace creator Demo.world
    = (Ret doc, w')
    /\ SPDXVersion doc = "SPDX-2.3" /\ DataLicense doc = "CC0-1.0"
    /\ SPDXIdentifier doc = "DOCUMENT" /\ DocumentName doc = "github-repo"
    /\ DocumentNamespace doc = defaultNamespace +:+ "-" +:+ uuid_New Demo.env
    /\ Creators doc = [mkCreator creator "Tool"]
    /\ Forall2 describes [Demo.local_repo] (Packages doc).
Proof.
  apply (buildSbom_one_package_per_repository Demo.env [Demo.local_repo]
           defaultNamespace creator Demo.world).
  constructor; [|constructor]. intros [dir Hd]. discriminate Hd.
Defined.

(** X9: [buildSbom] panics as soon as one of its repositories holds
    the nil reader, and no document is returned. *)
Theorem buildSbom_panics_on_nil_reader (env : Env) (repos : list repoWithReader)
        (namespace creator : string) (w : World) :
  Exists nil_reader repos ->
  exists w', buildSbom env repos namespace creator w = (Panic, w').
Proof.
  intros Hex. destruct (buildPackages_nil_reader env repos w Hex) as [w' Hp].
  exists w'. unfold buildSbom, bind. by rewrite Hp.
Qed.

Lemma buildSbom_panics_on_nil_reader_witness :
  exists w',
    buildSbom Demo.env
      [Demo.local_repo; mkRepo (url Demo.remote_repo) "/tmp/sbom0"
                          (Some (mkCloser false "/tmp/sbom0"))]
      defaultNamespace creator Demo.world = (Panic, w').
Proof.
  apply buildSbom_panics_on_nil_reader.
  apply Exists_cons_tl, Exists_cons_hd. by exists "/tmp/sbom0".
Defined.

(** X10: a retrieval answered with a status other than 200 is not an
    error of resolution, yet it leaves the nil reader behind: when
    such an argument resolves, the command panics in either output
    format instead of reporting the repository without licenses. *)
Theorem RunE_panics_after_non_200 (env : Env) (outputFormat namespace : string)
        (repoWithRef : string) (status : nat) (body : Body)
        (r : repoWithReader) (w w1 : World) :
  outputFormat = "spdx" \/ outputFormat = "spdx-json" ->
  local_form repoWithRef = false ->
  http_Get env repoWithRef = Response status body -> status <> 200 ->
  parse env repoWithRef w = (Ret (Ok r), w1) ->
  nil_reader r
  /\ RunE env outputFormat namespace [repoWithRef] w = (Panic, walked r w1).
Proof.
  intros Hfmt Hl Hg Hs Hp.
  destruct (parse_remote_cases env _ _ _ _ Hl Hp) as (gz & w0 & w2 & _ & He & _ & Hu).
  rewrite (extractURLToPath_soft env _ _ _ _ _ Hg Hs) in He. injection He as <- _.
  destruct (parse_url_Ok _ _ _ _ _ Hu) as (_ & _ & _ & _ & _ & Hc).
  assert (nil_reader r) as Hn by (by eexists).
  split; [done|].
  assert (parseAll env [repoWithRef] w = (Ret [r], w1)) as Hpa
    by (simpl; unfold bind; by rewrite Hp).
  assert (buildSbom env [r] namespace creator w1 = (Panic, walked r w1)) as Hb.
  { unfold buildSbom, bind. simpl. unfold bind.
    by rewrite (buildPackage_nil_reader env r w1 Hn). }
  unfold RunE, bind at 1. rewrite Hpa.
  destruct Hfmt as [-> | ->]; simpl; unfold bind at 1; by rewrite Hb.
Qed.

Lemma RunE_panics_after_non_200_witness :
  nil_reader (mkRepo (NetURL.mkURL "https" "" None "github.com" "/foo/gone" ""
                        false false "" "v1" "")
                "/tmp/sbom0" (Some (mkCloser false "/tmp/sbom0")))
  /\ (RunE Demo.env "spdx" defaultNamespace ["https://github.com/foo/gone#v1"]
        Demo.world).1 = Panic.
Proof.
  destruct (RunE_panics_after_non_200 Demo.env "spdx" defaultNamespace
              "https://github.com/foo/gone#v1" 404 BodyNotGzip
              (mkRepo (NetURL.mkURL "https" "" None "github.com" "/foo/gone" ""
                         false false "" "v1" "")
                 "/tmp/sbom0" (Some (mkCloser false "/tmp/sbom0")))
              Demo.world
              (parse Demo.env "https://github.com/foo/gone#v1" Demo.world).2)
    as [Hn Hr].
  - by left.
  - reflexivity.
  - reflexivity.
  - discriminate.
  - vm_compute. reflexivity.
  - split; [exact Hn|]. rewrite Hr. reflexivity.
Defined.

(** ** The run as a whole *)

Section RunMore.
Import GoStrings.
Variable env : Env.




Lemma parse_local_no_closer (repoWithRef : string) (w : World)
      (o : outcome (result repoWithReader)) (w' : World) :
  local_form repoWithRef = true ->
  parse env repoWithRef w = (o, w') ->
  fs w' = fs w /\ temps w' = temps w
  /\ exists res, o = Ret res /\ forall r, res = Ok r -> close r = None.
Proof.
  intros Hl Hp.
  destruct (parse_local_cases env repoWithRef w Hl) as (res & Hp' & Hres).
  rewrite Hp in Hp'. injection Hp' as -> ->. repeat split; try done.
  exists res. split; [done|]. intros r ->.
  destruct Hres as [?|[?|[?|[?|(origin & hash & Hu)]]]]; try done.
  symmetry in Hu. by destruct (parse_url_Ok _ _ _ _ _ Hu) as (_ & _ & _ & _ & _ & ?).
Qed.

Lemma parseAll_local (args : list string) (w : World)
      (o : outcome (list repoWithReader)) (w' : World) :
  Forall (fun a => local_form a = true) args ->
  parseAll env args w = (o, w') ->
  fs w' = fs w /\ temps w' = temps w
  /\ forall repos, o = Ret repos -> Forall (fun r => close r = None) repos.
Proof.
  revert w o w'. induction args as [|a rest IH]; intros w o w' Hall; simpl.
  - intros [= <- <-]. repeat split; try done. by intros repos [= <-].
  - apply Forall_cons in Hall as [Ha Hrest]. unfold bind at 1.
    destruct (parse env a w) as [o1 w1] eqn:Hp.
    destruct (parse_local_no_closer a w o1 w1 Ha Hp) as (Hf & Ht & res & -> & Hc).
    destruct res as [r|e].
    + unfold bind. destruct (parseAll env rest w1) as [o2 w2] eqn:Hr.
      destruct (IH w1 o2 w2 Hrest Hr) as (Hf2 & Ht2 & Hc2).
      destruct o2 as [repos|f|]; intros [= <- <-];
        (split; [congruence|]); (split; [congruence|]); try done.
      intros ? [= <-]. constructor; [by apply Hc | by apply Hc2].
    + intros [= <- <-]. by repeat split.
Qed.

Lemma buildPackages_no_closer (repos : list repoWithReader) (w : World)
      (o : outcome (list Package)) (w' : World) :
  Forall (fun r => close r = None) repos ->
  buildPackages env repos w = (o, w') ->
  fs w' = fs w /\ temps w' = temps w /\ exists packages, o = Ret packages.
Proof.
  revert w o w'. induction repos as [|r rest IH]; intros w o w' Hall; simpl.
  - intros [= <- <-]. by eauto.
  - apply Forall_cons in Hall as [Hr Hrest]. unfold bind at 1.
    assert (~ nil_reader r) as Hn by (intros [dir Hd]; congruence).
    destruct (buildPackage_describes env r w Hn) as (pkg & w1 & Hb & _).
    assert (fs w1 = fs w /\ temps w1 = temps w) as [Hf Ht].
    { destruct (buildPackage_fields env r w (walked r w) (detected env r w).1
                  (detected env r w).2) as (pkg' & Hb' & _).
      - rewrite getLicense_trimmed, getLicense_no_closer by done.
        by destruct (detected env r w).
      - rewrite Hb in Hb'. by injection Hb' as _ ->. }
    rewrite Hb. unfold bind at 1.
    destruct (buildPackages env rest w1) as [o2 w2] eqn:Hbs.
    destruct (IH w1 o2 w2 Hrest Hbs) as (Hf2 & Ht2 & ps & ->).
    intros [= <- <-]. repeat split; [congruence | congruence | by eauto].
Qed.

End RunMore.

(** X11: what detection leaves of a fetched archive. After [parse]
    resolved a remote input answered with status 200, license
    detection returns what the walk found, whatever the deferred
    release does, and a second detection over the same repository
    returns as well. When the gzip reader does not close, the error is
    dropped and the scratch directory is not touched, so that the
    second detection returns what the first did. When the removal
    fails, the error is dropped too and what could not be removed
    stays. When both go through, nothing is left at the path of the
    directory and the second detection returns two empty strings. *)
Theorem detection_releases_fetched_archive (env : Env) (repoWithRef : string)
        (body : Body) (r : repoWithReader) (w w1 w2 : World) :
  local_form repoWithRef = false ->
  http_Get env repoWithRef = Response 200 body ->
  parse env repoWithRef w = (Ret (Ok r), w1) ->
  exists w3 w4,
    getLicenseFromReader env (Some r) w2 = (Ret (detected env r w2), w3)
    /\ getLicenseFromReader env (Some r) w3 = (Ret (detected env r w3), w4)
    /\ if gzip_Close_fails env (readerDir r)
       then fs w3 = fs w2 /\ detected env r w3 = detected env r w2
       else match os_RemoveAll_fails env (readerDir r) with
            | Some keep =>
                fs w3 = FS.removePart keep (fs w2) (resolve env (readerDir r))
            | None =>
                FS.lookup (fs w3) (resolve env (readerDir r)) = None
                /\ detected env r w3 = ("", "")
            end.
Proof.
  intros Hl Hg Hp.
  destruct (parse_remote_cases env _ _ _ _ Hl Hp) as (gz & w0 & w' & Hm & He & _ & Hu).
  apply (extractURLToPath_reader env _ _ _ _ _ _ Hg) in He as ->.
  destruct (parse_url_Ok _ _ _ _ _ Hu) as (_ & _ & _ & _ & _ & Hc).
  pose proof (os_MkdirTemp_Ok env _ _ _ Hm) as Hne.
  destruct (gzip_Close_fails env (readerDir r)) eqn:Hf1.
  - exists (walked r w2), (walked r (walked r w2)).
    by rewrite !(getLicense_gzip_fails env r _ _ Hc Hf1).
  - destruct (os_RemoveAll_fails env (readerDir r)) as [keep|] eqn:Hf2.
    + do 2 eexists.
      rewrite !(getLicense_remove_fails env r _ _ keep Hc Hf1 Hf2). by simpl.
    + do 2 eexists. rewrite !(getLicense_release env r _ _ Hc Hf1 Hf2). simpl.
      repeat split.
      * by apply lookup_removeAll.
      * unfold detected, WalkDir. simpl. by rewrite lookup_removeAll.
Qed.

Lemma detection_releases_fetched_archive_witness :
  (exists w3 w4,
      getLicenseFromReader Demo.env (Some Demo.remote_repo)
        (parse Demo.env Demo.bar_url Demo.world).2
      = (Ret ("MIT", "MIT"), w3)
      /\ getLicenseFromReader Demo.env (Some Demo.remote_repo) w3
         = (Ret (detected Demo.env Demo.remote_repo w3), w4)
      /\ FS.lookup (fs w3) (resolve Demo.env (readerDir Demo.remote_repo)) = None
      /\ detected Demo.env Demo.remote_repo w3 = ("", ""))
  /\ (exists w3 w4,
        getLicenseFromReader Demo.env_gzip_fails (Some Demo.remote_repo)
          (parse Demo.env_gzip_fails Demo.bar_url Demo.world).2
        = (Ret ("MIT", "MIT"), w3)
        /\ getLicenseFromReader Demo.env_gzip_fails (Some Demo.remote_repo) w3
           = (Ret (detected Demo.env_gzip_fails Demo.remote_repo w3), w4)
        /\ fs w3 = fs (parse Demo.env_gzip_fails Demo.bar_url Demo.world).2
        /\ detected Demo.env_gzip_fails Demo.remote_repo w3 = ("MIT", "MIT"))
  /\ (exists w3 w4,
        getLicenseFromReader Demo.env_remove_fails (Some Demo.remote_repo)
          (parse Demo.env_remove_fails Demo.bar_url Demo.world).2
        = (Ret ("MIT", "MIT"), w3)
        /\ getLicenseFromReader Demo.env_remove_fails (Some Demo.remote_repo) w3
           = (Ret (detected Demo.env_remove_fails Demo.remote_repo w3), w4)
        /\ fs w3
           = Dir true
               [("tmp",
                 Dir true
                   [("sbom0",
                     Dir true
                       [("bar-1.2.3",
                         Dir true [("main.go", File true "package main")])])]);
                ("work", Dir true [("lab", Dir true []); ("repo", Demo.repo_tree)])]).
Proof.
  split; [|split].
  - apply (detection_releases_fetched_archive Demo.env Demo.bar_url Demo.bar_archive
             Demo.remote_repo Demo.world (parse Demo.env Demo.bar_url Demo.world).2
             (parse Demo.env Demo.bar_url Demo.world).2).
    + reflexivity.
    + reflexivity.
    + vm_compute. reflexivity.
  - apply (detection_releases_fetched_archive Demo.env_gzip_fails Demo.bar_url
             Demo.bar_archive Demo.remote_repo Demo.world
             (parse Demo.env_gzip_fails Demo.bar_url Demo.world).2
             (parse Demo.env_gzip_fails Demo.bar_url Demo.world).2).
    + reflexivity.
    + reflexivity.
    + vm_compute. reflexivity.
  - apply (detection_releases_fetched_archive Demo.env_remove_fails Demo.bar_url
             Demo.bar_archive Demo.remote_repo Demo.world
             (parse Demo.env_remove_fails Demo.bar_url Demo.world).2
             (parse Demo.env_remove_fails Demo.bar_url Demo.world).2).
    + reflexivity.
    + reflexivity.
    + vm_compute. reflexivity.
Defined.



(** X13: a run whose arguments are all paths to working copies leaves
    the file system as it found it and makes no scratch directory,
    whatever the format and however resolution ends. *)
Theorem RunE_leaves_working_copies_alone (env : Env)
        (outputFormat namespace : string) (args : list string)
        (w : World) (o : outcome (option error)) (w' : World) :
  Forall (fun a => local_form a = true) args ->
  RunE env outputFormat namespace args w = (o, w') ->
  fs w' = fs w /\ temps w' = temps w.
Proof.
  intros Hall. unfold RunE, bind at 1.
  destruct (parseAll env args w) as [o1 w1] eqn:Hp.
  destruct (parseAll_local env args w o1 w1 Hall Hp) as (Hf & Ht & Hc).
  destruct o1 as [repos|f|]; [|by intros [= <- <-]..].
  specialize (Hc repos eq_refl).
  assert (forall wtr,
             (sbom <~ buildSbom env repos namespace creator ;;
              writeDocument env wtr sbom) w1 = (o, w') ->
             fs w' = fs w /\ temps w' = temps w) as Hwrite.
  { intros wtr. unfold buildSbom, writeDocument, bind.
    destruct (buildPackages env repos w1) as [o2 w2] eqn:Hb.
    destruct (buildPackages_no_closer env repos w1 o2 w2 Hc Hb) as (Hf2 & Ht2 & ps & ->).
    simpl. destruct (write_fails env wtr _); simpl; intros [= <- <-]; simpl;
      split; congruence. }
  destruct (decide (outputFormat = "spdx")); [by apply Hwrite|].
  destruct (decide (outputFormat = "spdx-json")); [by apply Hwrite|].
  by intros [= <- <-].
Qed.

Lemma RunE_leaves_working_copies_alone_witness :
  fs (RunE Demo.env "spdx" defaultNamespace ["./repo"] Demo.world).2 = fs Demo.world
  /\ temps (RunE Demo.env "spdx" defaultNamespace ["./repo"] Demo.world).2
     = temps Demo.world.
Proof.
  apply (RunE_leaves_working_copies_alone Demo.env "spdx" defaultNamespace ["./repo"]
           Demo.world
           (RunE Demo.env "spdx" defaultNamespace ["./repo"] Demo.world).1).
  - by repeat constructor.
  - by destruct (RunE Demo.env "spdx" defaultNamespace ["./repo"] Demo.world).
Defined.

(** ** The walk, continued *)

Section WalkMore.
Import GoStrings.
Variable env : Env.

Lemma walkEntries_unchanged {S : Type}
      (walk : string -> node -> S -> option error * S)
      (name : string) (es : list (string * node)) (s : S) :
  Forall (fun e => forall s', (walk (GoPath.Join2 name e.1) e.2 s').2 = s') es ->
  (walkEntries walk name es s).2 = s.
Proof.
  revert s. induction es as [|[n1 d1] es IH]; intros s Hall; [done|].
  apply Forall_cons in Hall as [H1 Hall]. simpl in *. specialize (H1 s).
  destruct (walk _ d1 s) as [[e|] s1]; simpl in H1; subst s1; [done|].
  by apply IH.
Qed.

Lemma Join_singleton (name : string) : Join [name] "/" = name.
Proof. done. Qed.

(** The path of an entry of a directory that the walk reached. *)
Lemma Join2_walk (ds : list string) (name : string) :
  Forall plain ds -> plain name ->
  GoPath.Join2 (if decide (ds = []) then "." else Join ds "/") name
  = Join (ds ++ [name]) "/".
Proof.
  intros Hall Hname. destruct (decide (ds = [])) as [->|Hne].
  - by apply Join2_dot.
  - by apply Join2_Join_plain.
Qed.

Lemma plain_dot_git : plain ".git".
Proof. by repeat split. Qed.

Lemma HasPrefix_dot_git (ds : list string) :
  ds <> [] -> HasPrefix (Join (".git" :: ds) "/") ".git/" = true.
Proof.
  intros Hne. rewrite Join_cons by done.
  replace (".git" +:+ "/" +:+ Join ds "/") with (".git/" +:+ Join ds "/") by done.
  apply HasPrefix_app.
Qed.

Lemma walkFn_below_git (ds : list string) (d : node) (licenses : list string) :
  walkFn env (Join (".git" :: ds) "/") (inl d) licenses = (None, licenses).
Proof.
  unfold walkFn. destruct ds as [|x ds]; [done|].
  by rewrite HasPrefix_dot_git, orb_true_r.
Qed.

Lemma walkDir_below_git (d : node) :
  forall (ds : list string) (licenses : list string),
    well_named d -> Forall plain ds ->
    (walkDir (walkFn env) (Join (".git" :: ds) "/") d licenses).2 = licenses.
Proof.
  induction d as [r c| |r es IH] using node_ind_entries;
    intros ds licenses Hwn Hall; rewrite walkDir_unfold, walkFn_below_git;
    try done.
  destruct (negb r); [done|]. apply well_named_Dir in Hwn.
  apply walkEntries_unchanged.
  apply Forall_forall. intros [n1 d1] Hin s'. cbn [fst snd].
  rewrite Forall_forall in IH, Hwn.
  destruct (Hwn _ Hin) as [Hn1 Hd1]. cbn [fst snd] in *.
  rewrite Join2_Join_plain; [|done|by constructor; [apply plain_dot_git|]|done].
  change ((".git" :: ds) ++ [n1]) with (".git" :: (ds ++ [n1])).
  apply (IH _ Hin); [done|]. apply Forall_app. split; [done | by apply Forall_singleton].
Qed.

Lemma no_license_file_Dir (r : bool) (es : list (string * node)) :
  no_license_file env (Dir r es)
  <-> Forall (fun e => match e.2 with
                       | File _ _ => e.1 ∉ licenseFileNames env
                       | d' => no_license_file env d'
                       end) es.
Proof.
  change (no_license_file env (Dir r es))
    with ((fix all (es : list (string * node)) : Prop :=
             match es with
             | [] => True
             | (n, File _ _) :: es' => (n ∉ licenseFileNames env) /\ all es'
             | (_, d') :: es' => no_license_file env d' /\ all es'
             end) es).
  induction es as [|[n d] es IH].
  - split; [constructor | done].
  - rewrite Forall_cons, <- IH. by destruct d.
Qed.

Lemma Base_Join_plain (ds : list string) (name : string) :
  Forall plain ds -> plain name -> GoPath.Base (Join (ds ++ [name]) "/") = name.
Proof.
  intros Hall (Hne & _ & _ & Hs). destruct ds as [|d ds].
  - by apply Base_slashless.
  - rewrite Join_snoc by done. by apply Base_last_segment.
Qed.

Lemma walkFn_other_name (ds : list string) (name : string) (readable : bool)
      (content : string) (licenses : list string) :
  Forall plain ds -> plain name -> name ∉ licenseFileNames env ->
  walkFn env (Join (ds ++ [name]) "/") (inl (File readable content)) licenses
  = (None, licenses).
Proof.
  intros Hall Hname Hno. unfold walkFn. destruct (_ || _); [done|].
  rewrite Base_Join_plain by done. by rewrite bool_decide_eq_false_2.
Qed.

Lemma walkFn_not_file (path : string) (d : node) (licenses : list string) :
  (forall readable content, d <> File readable content) ->
  walkFn env path (inl d) licenses = (None, licenses).
Proof.
  intros Hd. unfold walkFn. destruct (_ || _); [done|].
  by destruct d as [readable content| |]; [destruct (Hd readable content)|..].
Qed.

Lemma walkDir_no_license_file (d : node) :
  forall (ds : list string) (name : string) (licenses : list string),
    well_named d -> Forall plain ds -> plain name ->
    match d with
    | File _ _ => name ∉ licenseFileNames env
    | _ => no_license_file env d
    end ->
    (walkDir (walkFn env) (Join (ds ++ [name]) "/") d licenses).2 = licenses.
Proof.
  induction d as [r c| |r es IH] using node_ind_entries;
    intros ds name licenses Hwn Hall Hname Hno; rewrite walkDir_unfold.
  - by rewrite walkFn_other_name.
  - by rewrite walkFn_not_file.
  - rewrite walkFn_not_file by done. destruct (negb r); [done|].
    apply well_named_Dir in Hwn. apply no_license_file_Dir in Hno.
    apply walkEntries_unchanged.
    apply Forall_forall. intros [n1 d1] Hin s'. cbn [fst snd].
    rewrite Forall_forall in IH, Hwn, Hno.
    destruct (Hwn _ Hin) as [Hn1 Hd1]. specialize (Hno _ Hin). cbn [fst snd] in *.
    assert (Forall plain (ds ++ [name])) as Hall'
      by (apply Forall_app; split; [done | by apply Forall_singleton]).
    rewrite Join2_Join_plain by (done || by destruct ds).
    apply (IH _ Hin (ds ++ [name]) n1 s' Hd1 Hall' Hn1). cbn [snd].
    by destruct d1.
Qed.

End WalkMore.

Section WalkScan.
Import GoStrings.
Variable env : Env.

Lemma HasPrefix_dot_git_slashless (name : string) :
  slashless name -> HasPrefix name ".git/" = false.
Proof.
  intros Hs. destruct (HasPrefix name ".git/") eqn:Hp; [|done].
  apply HasPrefix_spec in Hp as [t ->].
  apply slashless_app in Hs as [Hs _]. by vm_compute in Hs.
Qed.

Lemma HasPrefix_dot_git_first (d rest : string) :
  slashless d -> d <> ".git" -> HasPrefix (d +:+ "/" +:+ rest) ".git/" = false.
Proof.
  intros Hs Hd. destruct (HasPrefix _ ".git/") eqn:Hp; [|done].
  apply HasPrefix_spec in Hp as [t Ht].
  assert (SplitByte (d +:+ "/" +:+ rest) "/" = SplitByte (".git" +:+ "/" +:+ t) "/")
    as Hsplit by (by rewrite Ht).
  rewrite !SplitByte_app in Hsplit by done. by injection Hsplit as ->.
Qed.

Lemma existsb_vendor (ds : list string) :
  "vendor" ∉ ds -> existsb (fun part => bool_decide (part = "vendor")) ds = false.
Proof.
  intros Hv. destruct (existsb _ ds) eqn:He; [|done].
  apply existsb_exists in He as (x & Hin & Hx).
  apply bool_decide_eq_true in Hx as ->. destruct Hv. by apply list_elem_of_In.
Qed.

(** The guards of the callback on the paths of the walk. *)
Lemma licenseRelevant_walk_path (ds : list string) (name : string) :
  Forall plain ds -> plain name ->
  name ∈ licenseFileNames env -> "vendor" ∉ ds ->
  head (ds ++ [name]) <> Some ".git" ->
  licenseRelevant env (Join (ds ++ [name]) "/") = true.
Proof.
  intros Hall Hname Hin Hv Hgit. pose proof Hname as (Hne & _ & _ & Hs).
  unfold licenseRelevant. rewrite Base_Join_plain by done.
  rewrite (bool_decide_eq_true_2 _ Hin), andb_true_r.
  destruct ds as [|d ds].
  - simpl app. rewrite Join_singleton.
    rewrite HasPrefix_dot_git_slashless by done.
    rewrite bool_decide_eq_false_2 by (intros ->; by destruct Hgit).
    unfold GoPath.Dir, GoPath.last_separator.
    by rewrite LastIndex_slashless.
  - rewrite Split_Dir_Join_plain by (done || by apply plain_slashless).
    rewrite existsb_vendor by done.
    apply Forall_cons in Hall as [(_ & _ & _ & Hd) Hds].
    change ((d :: ds) ++ [name]) with (d :: (ds ++ [name])).
    rewrite Join_cons by (by destruct ds).
    rewrite HasPrefix_dot_git_first; [|done|intros ->; by destruct Hgit].
    rewrite bool_decide_eq_false_2; [done|].
    intros Heq.
    assert (slashless (d +:+ "/" +:+ Join (ds ++ [name]) "/")) as Hsl
      by (by rewrite Heq).
    apply slashless_app in Hsl as [_ Hsl]. apply slashless_app in Hsl as [Hsl _].
    by vm_compute in Hsl.
Qed.

Lemma walkFn_unreadable (path content : string) (licenses : list string) :
  licenseRelevant env path = true ->
  walkFn env path (inl (File false content)) licenses
  = (Some (ErrOpen path), licenses).
Proof.
  unfold licenseRelevant, walkFn.
  rewrite !andb_true_iff, !negb_true_iff. intros [[-> Hname] ->].
  by rewrite Hname.
Qed.

Lemma walkEntries_reaches {S : Type}
      (walk : string -> node -> S -> option error * S)
      (name n1 : string) (d1 : node) (es : list (string * node)) (s : S) :
  FS.lookup_entry n1 es = Some d1 ->
  (forall s', is_Some (walk (GoPath.Join2 name n1) d1 s').1) ->
  is_Some (walkEntries walk name es s).1.
Proof.
  intros Hl Hw. revert s. induction es as [|[n d] es IH]; intros s; [done|].
  simpl in *. destruct (decide (n = n1)) as [->|Hn].
  - injection Hl as ->. specialize (Hw s).
    by destruct (walk _ d1 s) as [[e|] s1]; [|destruct Hw].
  - destruct (walk _ d s) as [[e|] s1]; [done|]. by apply IH.
Qed.

Lemma walkDir_reaches_unreadable (segs : list string) :
  forall (pre : list string) (d : node) (content : string) (licenses : list string),
    segs <> [] -> Forall plain pre -> Forall plain segs ->
    licenseRelevant env (Join (pre ++ segs) "/") = true ->
    FS.lookup d segs = Some (File false content) ->
    is_Some (walkDir (walkFn env)
               (if decide (pre = []) then "." else Join pre "/") d licenses).1.
Proof.
  induction segs as [|s1 segs IH]; intros pre d content licenses Hne Hpre Hsegs Hrel Hl;
    [done|].
  apply Forall_cons in Hsegs as [Hs1 Hsegs].
  destruct d as [| |r es]; try done. simpl in Hl.
  destruct (FS.lookup_entry s1 es) as [d1|] eqn:He; [|done]. simpl in Hl.
  rewrite walkDir_unfold, walkFn_not_file by done.
  destruct (negb r); [done|].
  apply (walkEntries_reaches _ _ s1 d1); [done|]. intros s'.
  rewrite Join2_walk by done.
  assert (Forall plain (pre ++ [s1])) as Hpre'
    by (apply Forall_app; split; [done | by apply Forall_singleton]).
  replace (pre ++ s1 :: segs) with ((pre ++ [s1]) ++ segs) in Hrel
    by (by rewrite <- app_assoc).
  destruct segs as [|s2 segs].
  - injection Hl as ->. rewrite app_nil_r in Hrel.
    by rewrite walkDir_unfold, walkFn_unreadable.
  - specialize (IH (pre ++ [s1]) d1 content s').
    destruct (decide (pre ++ [s1] = [])) as [Hnil|_]; [by destruct pre|].
    by apply IH.
Qed.

Lemma reduceLicenses_nil (o : option error) : reduceLicenses (o, []) = ("", "").
Proof. by destruct o. Qed.

Lemma reduceLicenses_error (e : error) (licenses : list string) :
  reduceLicenses (Some e, licenses) = ("", "").
Proof. done. Qed.

End WalkScan.

(** X14: a directory named [vendor], at any depth, adds no finding,
    whatever it holds. *)
Theorem vendor_directory_adds_nothing (env : Env) (ds : list string) (r : bool)
        (es : list (string * node)) (licenses : list string) :
  Forall plain ds -> well_named (Dir r es) ->
  (walkDir (walkFn env) (GoStrings.Join (ds ++ ["vendor"]) "/") (Dir r es) licenses).2
  = licenses.
Proof.
  intros Hall Hwn. rewrite walkDir_unfold, walkFn_not_file by done.
  destruct (negb r); [done|]. apply well_named_Dir in Hwn.
  assert (plain "vendor") as Hv by (by repeat split).
  assert (Forall plain (ds ++ ["vendor"])) as Hall'
    by (apply Forall_app; split; [done | by apply Forall_singleton]).
  apply walkEntries_unchanged. apply Forall_forall. intros [n1 d1] Hin s'.
  rewrite Forall_forall in Hwn. destruct (Hwn _ Hin) as [Hn1 Hd1].
  cbn [fst snd] in *. rewrite Join2_Join_plain by (done || by destruct ds).
  apply walkDir_below_vendor; try done. apply elem_of_app. right. by left.
Qed.

Lemma vendor_directory_adds_nothing_witness :
  (walkDir (walkFn Demo.env) "vendor"
     (Dir true [("pkg", Dir true [("LICENSE", File true Demo.apache_text)])])
     ["MIT"]).2 = ["MIT"].
Proof.
  apply (vendor_directory_adds_nothing Demo.env [] true
           [("pkg", Dir true [("LICENSE", File true Demo.apache_text)])] ["MIT"]).
  - constructor.
  - vm_compute. repeat split; congruence.
Defined.

(** X15: nothing below the top-level [.git] adds a finding. *)
Theorem git_directory_adds_nothing (env : Env) (ds : list string) (d : node)
        (licenses : list string) :
  well_named d -> Forall plain ds ->
  (walkDir (walkFn env) (GoStrings.Join (".git" :: ds) "/") d licenses).2 = licenses.
Proof. intros Hwn Hall. by apply walkDir_below_git. Qed.

Lemma git_directory_adds_nothing_witness :
  (walkDir (walkFn Demo.env) ".git"
     (Dir true [("COPYING", File true Demo.mit_text)]) []).2 = [].
Proof.
  apply (git_directory_adds_nothing Demo.env []
           (Dir true [("COPYING", File true Demo.mit_text)]) []).
  - vm_compute. repeat split; congruence.
  - constructor.
Defined.

(** X16: a readable regular file under a recognised name is scanned
    wherever the walk finds it outside the [vendor] directories and
    the top-level [.git], a nested [.git] directory included: its
    matches are recorded, after [UNKNOWN] when the coverage is below
    the threshold. *)
Theorem license_file_is_scanned (env : Env) (ds : list string) (name content : string)
        (licenses : list string) :
  Forall plain ds -> plain name ->
  name ∈ licenseFileNames env -> "vendor" ∉ ds ->
  head (ds ++ [name]) <> Some ".git" ->
  walkFn env (GoStrings.Join (ds ++ [name]) "/") (inl (File true content)) licenses
  = (None,
     let cov := licensecheck_Scan env content in
     (if PrimFloat.ltb (Percent cov) coverageThreshold
      then licenses ++ [unknownLicenseType] else licenses)
     ++ (ID <$> Matches cov)).
Proof.
  intros Hall Hname Hin Hv Hgit. apply walkFn_scanned.
  by apply licenseRelevant_walk_path.
Qed.

Lemma license_file_is_scanned_witness :
  walkFn Demo.env "sub/.git/LICENSE" (inl (File true Demo.mit_text)) []
  = (None, ["MIT"]).
Proof.
  apply (license_file_is_scanned Demo.env ["sub"; ".git"] "LICENSE" Demo.mit_text []).
  - repeat constructor; vm_compute; congruence.
  - repeat split; vm_compute; congruence.
  - vm_compute. set_solver.
  - vm_compute. intros H. by repeat (inversion H as [|? ? ? H']; clear H; rename H' into H).
  - discriminate.
Defined.

(** X17: over a tree that holds no regular file under a recognised
    name, detection finds nothing: declared and concluded are both
    empty, also when a directory of the tree cannot be read. *)
Theorem detection_without_license_files (env : Env) (r : repoWithReader) (w : World)
        (readable : bool) (es : list (string * node)) :
  FS.lookup (fs w) (resolve env (readerDir r)) = Some (Dir readable es) ->
  well_named (Dir readable es) -> no_license_file env (Dir readable es) ->
  detected env r w = ("", "").
Proof.
  intros Hl Hwn Hno. unfold detected, WalkDir. rewrite Hl.
  rewrite walkDir_unfold, walkFn_not_file by done.
  destruct (negb readable); [done|].
  apply well_named_Dir in Hwn. apply no_license_file_Dir in Hno.
  assert ((walkEntries (walkDir (walkFn env)) "." es []).2 = []) as Hnil.
  { apply walkEntries_unchanged. apply Forall_forall. intros [n1 d1] Hin s'.
    rewrite Forall_forall in Hwn, Hno. destruct (Hwn _ Hin) as [Hn1 Hd1].
    specialize (Hno _ Hin). cbn [fst snd] in *. rewrite Join2_dot by done.
    apply (walkDir_no_license_file env d1 [] n1 s'); try done. by destruct d1. }
  destruct (walkEntries _ _ _ _) as [o ls]. simpl in Hnil. subst ls.
  apply reduceLicenses_nil.
Qed.

Lemma detection_without_license_files_witness :
  detected Demo.env (mkRepo (url Demo.local_repo) "./repo" None)
    (mkWorld
       (Dir true
          [("work",
            Dir true
              [("repo",
                Dir true
                  [("COPYING", Symlink);
                   ("LICENSE", Dir true [("text.md", File true Demo.apache_text)]);
                   ("README.md", File true Demo.mit_text);
                   ("main.go", File false "package main")])])])
       0 [])
  = ("", "")
  /\ detected Demo.env (mkRepo (url Demo.local_repo) "./repo" None)
       (mkWorld
          (Dir true
             [("work",
               Dir true
                 [("repo",
                   Dir true
                     [("README.md", File true Demo.mit_text);
                      ("sealed", Dir false [("notes.txt", File true Demo.notes_text)]);
                      ("src", Dir true [("main.go", File true "package main")])])])])
          0 [])
     = ("", "").
Proof.
  split.
  - apply (detection_without_license_files Demo.env
             (mkRepo (url Demo.local_repo) "./repo" None) _ true
             [("COPYING", Symlink);
              ("LICENSE", Dir true [("text.md", File true Demo.apache_text)]);
              ("README.md", File true Demo.mit_text);
              ("main.go", File false "package main")]).
    + vm_compute. reflexivity.
    + vm_compute. repeat split; congruence.
    + vm_compute. repeat split;
        intros H; by repeat (inversion H as [|? ? ? H']; clear H; rename H' into H).
  - apply (detection_without_license_files Demo.env
             (mkRepo (url Demo.local_repo) "./repo" None) _ true
             [("README.md", File true Demo.mit_text);
              ("sealed", Dir false [("notes.txt", File true Demo.notes_text)]);
              ("src", Dir true [("main.go", File true "package main")])]).
    + vm_compute. reflexivity.
    + vm_compute. repeat split; congruence.
    + vm_compute. repeat split;
        intros H; by repeat (inversion H as [|? ? ? H']; clear H; rename H' into H).
Defined.

(** X18: one license file that cannot be opened, outside the [vendor]
    directories and the top-level [.git], ends the walk in an error,
    and detection then returns two empty strings whatever the other
    files matched. *)
Theorem unreadable_license_file_voids_detection (env : Env) (r : repoWithReader)
        (w : World) (root : node) (ds : list string) (name content : string) :
  FS.lookup (fs w) (resolve env (readerDir r)) = Some root ->
  Forall plain ds -> plain name ->
  name ∈ licenseFileNames env -> "vendor" ∉ ds ->
  head (ds ++ [name]) <> Some ".git" ->
  FS.lookup root (ds ++ [name]) = Some (File false content) ->
  detected env r w = ("", "").
Proof.
  intros Hl Hall Hname Hin Hv Hgit Hfile. unfold detected, WalkDir. rewrite Hl.
  assert (is_Some (walkDir (walkFn env) "." root []).1) as [e He].
  { apply (walkDir_reaches_unreadable env (ds ++ [name]) [] root content []);
      try done.
    - by destruct ds.
    - apply Forall_app. split; [done | by apply Forall_singleton].
    - by apply licenseRelevant_walk_path. }
  destruct (walkDir _ _ _ _) as [o ls]. simpl in He. by subst o.
Qed.

Lemma unreadable_license_file_voids_detection_witness :
  detected Demo.env (mkRepo (url Demo.local_repo) "./repo" None)
    (mkWorld
       (Dir true
          [("work",
            Dir true
              [("repo",
                Dir true
                  [("LICENSE", File true Demo.mit_text);
                   ("docs", Dir true [("COPYING", File false Demo.apache_text)])])])])
       0 [])
  = ("", "").
Proof.
  apply (unreadable_license_file_voids_detection Demo.env
           (mkRepo (url Demo.local_repo) "./repo" None) _
           (Dir true
              [("LICENSE", File true Demo.mit_text);
               ("docs", Dir true [("COPYING", File false Demo.apache_text)])])
           ["docs"] "COPYING" Demo.apache_text).
  - vm_compute. reflexivity.
  - repeat constructor; vm_compute; congruence.
  - repeat split; vm_compute; congruence.
  - vm_compute. set_solver.
  - vm_compute. intros H. by repeat (inversion H as [|? ? ? H']; clear H; rename H' into H).
  - discriminate.
  - vm_compute. reflexivity.
Defined.

(** ** Edges of assembly and resolution *)

(** X19: for a repository whose URL carries no revision, the package
    has no version and its download location names an archive with an
    empty revision, [/archive/.tar.gz]. *)
Theorem package_without_revision (env : Env) (r : repoWithReader) (w : World) :
  NetURL.Fragment (url r) = "" -> ~ nil_reader r ->
  exists pkg w',
    buildPackage env r w = (Ret (pkg, trimmed r), w')
    /\ PackageVersion pkg = ""
    /\ PackageDownloadLocation pkg
       = NetURL.Scheme (url r) +:+ "://" +:+ NetURL.Host (url r)
           +:+ GoStrings.TrimSuffix (NetURL.Path (url r)) ".git"
           +:+ "/archive/.tar.gz".
Proof.
  intros Hf Hn.
  destruct (buildPackage_describes env r w Hn) as (pkg & w' & Hb & _ & _ & Hv & Hl).
  exists pkg, w'. rewrite Hv, Hl, Hf. repeat split; [done|].
  unfold githubUrlToDownload. simpl. by rewrite Hf.
Qed.

Lemma package_without_revision_witness :
  exists pkg w',
    buildPackage Demo.env
      (mkRepo (NetURL.mkURL "https" "" None "github.com" "/foo/bar.git" ""
                 false false "" "" "") "./repo" None) Demo.world
    = (Ret (pkg, trimmed (mkRepo (NetURL.mkURL "https" "" None "github.com"
                                    "/foo/bar.git" "" false false "" "" "")
                            "./repo" None)), w')
    /\ PackageVersion pkg = ""
    /\ PackageDownloadLocation pkg = "https://github.com/foo/bar/archive/.tar.gz".
Proof.
  apply (package_without_revision Demo.env
           (mkRepo (NetURL.mkURL "https" "" None "github.com" "/foo/bar.git" ""
                      false false "" "" "") "./repo" None) Demo.world).
  - reflexivity.
  - intros [dir Hd]. discriminate Hd.
Defined.

(** X20: an [origin] URL in which [git@github.com:] does not occur is
    handed to [url.Parse] as it is, followed by [#] and the hash of
    [HEAD]. *)
Theorem other_origin_kept (env : Env) (repoWithRef origin hash : string)
        (urls : list string) (w : World) :
  local_form repoWithRef = true ->
  git_PlainOpen env repoWithRef
  = Some (mkGitRepo (Some (origin :: urls)) (Some hash)) ->
  GoStrings.Index origin "git@github.com:" = None ->
  parse env repoWithRef w
  = (Ret (parse_url repoWithRef (origin +:+ "#" +:+ hash) repoWithRef None),
     mkWorld (fs w) (temps w) (trace w ++ [EvGitOpen repoWithRef])).
Proof.
  intros Hl Hg Hi. rewrite (parse_local env _ _ _ _ _ Hl Hg).
  by rewrite localRepoURL_other.
Qed.

Lemma other_origin_kept_witness :
  parse Demo.env "./lab" Demo.world
  = (Ret (parse_url "./lab" "git@gitlab.com:foo/bar.git#0a1b2c3" "./lab" None),
     mkWorld Demo.root 0 [EvGitOpen "./lab"]).
Proof.
  apply (other_origin_kept Demo.env "./lab" "git@gitlab.com:foo/bar.git" "0a1b2c3" []
           Demo.world); reflexivity.
Defined.

Section ExtractionEdges.
Variable env : Env.

Lemma in_dir_missing (f : list (string * node) -> option (list (string * node)))
      (d : node) (segs : list string) :
  FS.lookup d segs = None -> FS.in_dir f d segs = None.
Proof.
  revert d. induction segs as [|s segs IH]; intros d; [done|].
  destruct d as [| |r es]; simpl; try done.
  destruct (FS.lookup_entry s es) as [c|]; simpl; [|done].
  intros Hl. by rewrite (IH c Hl).
Qed.

Lemma in_dir_insert_lookup (name : string) (new : node) (segs : list string)
      (f : list (string * node) -> option (list (string * node))) (d d' : node) :
  (forall es es', f es = Some es' -> es' = FS.put_entry name new es) ->
  FS.in_dir f d segs = Some d' ->
  FS.lookup d' (segs ++ [name]) = Some new.
Proof.
  intros Hf. revert d d'. induction segs as [|s segs IH]; intros d d'.
  - destruct d as [| |r es]; simpl; try done.
    destruct (f es) as [es'|] eqn:He; simpl; [|done]. intros [= <-].
    simpl. by rewrite (Hf _ _ He), lookup_entry_put.
  - destruct d as [| |r es]; simpl; try done.
    destruct (FS.lookup_entry s es) as [c|]; simpl; [|done].
    destruct (FS.in_dir f c segs) as [c'|] eqn:Hc; simpl; [|done].
    intros [= <-]. simpl. rewrite lookup_entry_put. simpl. by eapply IH.
Qed.

(** The directory [os.Mkdir] made is there. *)
Lemma lookup_mkdir (root root' : node) (segs : list string) :
  FS.mkdir root segs = Some root' -> FS.lookup root' segs = Some (Dir true []).
Proof.
  unfold FS.mkdir. destruct (last segs) as [name|] eqn:Hlast; [|done].
  intros Hin.
  assert (segs = removelast segs ++ [name]) as Hsegs.
  { destruct (exists_last (l := segs)) as (parent & x & ->).
    - by intros ->.
    - rewrite last_snoc in Hlast. injection Hlast as ->.
      by rewrite removelast_last. }
  rewrite Hsegs at 1. eapply in_dir_insert_lookup; [|exact Hin].
  intros es es'. simpl. by destruct (FS.lookup_entry name es); [|intros [= <-]].
Qed.

End ExtractionEdges.

(** X21: a regular-file entry whose parent directory does not exist,
    as in an archive that lists files without their directories, ends
    the process in [log.Fatalf]; nothing of the rest of the archive is
    extracted. *)
Theorem extract_file_without_directory_is_fatal (env : Env) (path name content : string)
        (rest : list TarEntry) (w : World) :
  FS.lookup (fs w) (removelast (resolve env (GoPath.Join2 path name))) = None ->
  extract_entries env path (TarReg name content :: rest) w
  = (Fatal (FatalExtractCreate (GoPath.Join2 path name)), w).
Proof.
  intros Hl. simpl. unfold bind, get_fs.
  assert (FS.create (fs w) (resolve env (GoPath.Join2 path name)) content = None)
    as ->; [|done].
  unfold FS.create. destruct (last _); [|done]. by apply in_dir_missing.
Qed.

Lemma extract_file_without_directory_is_fatal_witness :
  extract_entries Demo.env "/tmp/sbom0"
    [TarReg "bar-1.2.3/LICENSE" Demo.mit_text; TarReg "bar-1.2.3/main.go" "package main"]
    (mkWorld (Dir true [("tmp", Dir true [("sbom0", Dir true [])])]) 1 [])
  = (Fatal (FatalExtractCreate "/tmp/sbom0/bar-1.2.3/LICENSE"),
     mkWorld (Dir true [("tmp", Dir true [("sbom0", Dir true [])])]) 1 []).
Proof.
  apply (extract_file_without_directory_is_fatal Demo.env "/tmp/sbom0"
           "bar-1.2.3/LICENSE" Demo.mit_text
           [TarReg "bar-1.2.3/main.go" "package main"]).
  vm_compute. reflexivity.
Defined.

(** X22: when the retrieval fails in transport, [parse] returns that
    error after it made the scratch directory, and the directory is
    still there: no path of resolution removes it. *)
Theorem failed_retrieval_leaves_scratch_directory (env : Env) (repoWithRef dir : string)
        (w w1 : World) :
  local_form repoWithRef = false ->
  os_MkdirTemp env w = (Ret (Ok dir), w1) ->
  http_Get env repoWithRef = TransportError ->
  exists w',
    parse env repoWithRef w = (Ret (Err (ErrHttpGet repoWithRef)), w')
    /\ FS.lookup (fs w') (resolve env dir) = Some (Dir true [])
    /\ extends_with resolution_event w w'.
Proof.
  intros Hl Hm Hg. unfold local_form in Hl.
  assert (parse env repoWithRef w
          = (Ret (Err (ErrHttpGet repoWithRef)),
             mkWorld (fs w1) (temps w1) (trace w1 ++ [EvHttpGet repoWithRef]))) as Hp.
  { unfold parse. rewrite Hl. unfold bind at 1. rewrite Hm.
    unfold extractURLToPath, bind, emit. by rewrite Hg. }
  eexists. split; [exact Hp|]. split; [|by eapply parse_events].
  simpl. revert Hm. unfold os_MkdirTemp, bind, next_temp, get_fs. simpl.
  destruct (FS.mkdir _ _) as [root'|] eqn:Hmk; simpl; [|done].
  intros [= <- <-]. simpl. by eapply lookup_mkdir.
Qed.

Lemma failed_retrieval_leaves_scratch_directory_witness :
  exists w',
    parse Demo.env "https://unreachable.example/foo/bar#v1" Demo.world
    = (Ret (Err (ErrHttpGet "https://unreachable.example/foo/bar#v1")), w')
    /\ FS.lookup (fs w') (resolve Demo.env "/tmp/sbom0") = Some (Dir true [])
    /\ extends_with resolution_event Demo.world w'.
Proof.
  apply (failed_retrieval_leaves_scratch_directory Demo.env
           "https://unreachable.example/foo/bar#v1" "/tmp/sbom0" Demo.world
           (os_MkdirTemp Demo.env Demo.world).2); vm_compute; reflexivity.
Defined.
